(** * realtime-stock-data-service: connection manager and quote persistence

    A shallow embedding of
    - [src/mqtt/services/mqtt-connection.service.ts] (class
      [MqttConnectionManager]: [connect], [scheduleReconnect], [end]),
    - [src/quote/services/quote.service.ts] (class [QuoteService]:
      [mapQuoteToInternalFormat], [saveQuoteIfChanged]) together with the
      second revision of that file that carries the existence check and the
      cache update,
    - the earlier [MqttService] ([normalizeQuote], [scheduleReconnect]).

    JavaScript numbers are IEEE doubles.  Every finite double is a rational,
    so a number is modelled as NaN, an infinity or an exact rational; the two
    zeros are identified (they cannot be told apart by [===], [isNaN] or
    truthiness, the only observations the quote code makes).  The arithmetic
    of the reconnect scheduler is done over exact rationals.

    Collaborators whose code is not part of these files enter as inputs:
    what [isTradingTime()] and [Math.random()] answer, how the credential
    request, the broker and the two stores respond, and the tables of
    map/quote.map. *)

From Stdlib Require Import ZArith QArith Qabs Qcanon Qround Lia Lqa Ascii String.
From stdpp Require Import gmap strings list pretty.

Local Open Scope Z_scope.

(** ** JavaScript values *)

Module Js.

Inductive JsNum : Type :=
| NaN
| Inf (negative : bool)
| Fin (q : Qc).

(** The primitive values a parsed JSON payload can hold, plus [undefined]
    (what reading a missing property gives). *)
Inductive JsValue : Type :=
| VUndefined
| VNull
| VBool (b : bool)
| VNum (n : JsNum)
| VStr (s : string).

#[global] Instance JsNum_eq_dec : EqDecision JsNum.
Proof. solve_decision. Defined.

#[global] Instance JsValue_eq_dec : EqDecision JsValue.
Proof. solve_decision. Defined.

Definition JsNum_to_sum (n : JsNum) : unit + (bool + Qc) :=
  match n with
  | NaN => inl tt
  | Inf b => inr (inl b)
  | Fin q => inr (inr q)
  end.

Definition JsNum_of_sum (x : unit + (bool + Qc)) : JsNum :=
  match x with
  | inl _ => NaN
  | inr (inl b) => Inf b
  | inr (inr q) => Fin q
  end.

#[global] Instance JsNum_countable : Countable JsNum.
Proof.
  refine (inj_countable' JsNum_to_sum JsNum_of_sum _).
  by intros [].
Defined.

Definition JsValue_to_sum (v : JsValue) : bool + (bool + (JsNum + string)) :=
  match v with
  | VUndefined => inl false
  | VNull => inl true
  | VBool b => inr (inl b)
  | VNum n => inr (inr (inl n))
  | VStr s => inr (inr (inr s))
  end.

Definition JsValue_of_sum (x : bool + (bool + (JsNum + string))) : JsValue :=
  match x with
  | inl false => VUndefined
  | inl true => VNull
  | inr (inl b) => VBool b
  | inr (inr (inl n)) => VNum n
  | inr (inr (inr s)) => VStr s
  end.

#[global] Instance JsValue_countable : Countable JsValue.
Proof.
  refine (inj_countable' JsValue_to_sum JsValue_of_sum _).
  by intros [].
Defined.

(** [isNaN] on a number. *)
Definition isNaN (n : JsNum) : bool :=
  match n with NaN => true | _ => false end.

Definition num_of_Z (z : Z) : JsNum := Fin (Q2Qc (inject_Z z)).

(** ToBoolean: [undefined], [null], [false], [NaN], zero and the empty string
    are falsy. *)
Definition truthy (v : JsValue) : bool :=
  match v with
  | VUndefined | VNull => false
  | VBool b => b
  | VNum NaN => false
  | VNum (Inf _) => true
  | VNum (Fin q) => negb (bool_decide (q = Q2Qc 0))
  | VStr s => negb (bool_decide (s = EmptyString))
  end.

(** Strict equality [===] on primitives: same type and same value, and NaN is
    different from itself. *)
Definition strict_eq (a b : JsValue) : bool :=
  match a, b with
  | VNum NaN, _ | _, VNum NaN => false
  | _, _ => bool_decide (a = b)
  end.

Definition strict_neq (a b : JsValue) : bool := negb (strict_eq a b).

Definition is_nullish (v : JsValue) : bool :=
  match v with VUndefined | VNull => true | _ => false end.

(** A plain object holding primitives; reading a missing property gives
    [undefined].  Only own properties are modelled. *)
Definition prop (o : gmap string JsValue) (k : string) : JsValue :=
  default VUndefined (o !! k).

(** The built-ins of the host that the service calls and that depend on text
    parsing or on the zone of the process. *)
Class Runtime : Type := {
  (** [Number(s)] on a string *)
  StringToNumber : string → JsNum;
  (** [String(n)] on a number, used when a number is a property key *)
  NumberToString : JsNum → string;
  (** [Date.parse(s)]: milliseconds since the epoch, [None] for NaN *)
  DateParse : string → option Z;
  (** offset of the local zone in milliseconds; the flag says whether the
      instant is given in UTC ([true]) or in local time ([false]) *)
  LocalTZA : Z → bool → Z;
}.

Section with_runtime.
Context `{Runtime}.

(** ToNumber, i.e. [Number(v)]. *)
Definition Number (v : JsValue) : JsNum :=
  match v with
  | VUndefined => NaN
  | VNull => num_of_Z 0
  | VBool true => num_of_Z 1
  | VBool false => num_of_Z 0
  | VNum n => n
  | VStr s => StringToNumber s
  end.

(** ToPropertyKey on a primitive. *)
Definition ToPropertyKey (v : JsValue) : string :=
  match v with
  | VUndefined => "undefined"
  | VNull => "null"
  | VBool true => "true"
  | VBool false => "false"
  | VNum n => NumberToString n
  | VStr s => s
  end.

End with_runtime.

(** *** Dates *)

(** A time value: milliseconds since the epoch, or [None] for an invalid
    date. *)
Definition TimeValue : Type := option Z.

Definition msPerSecond : Z := 1000.
Definition msPerMinute : Z := 60000.
Definition msPerHour : Z := 3600000.
Definition msPerDay : Z := 86400000.
Definition maxTime : Z := 8640000000000000.

Definition Day (t : Z) : Z := t / msPerDay.
Definition HourFromTime (t : Z) : Z := (t / msPerHour) mod 24.
Definition MinFromTime (t : Z) : Z := (t / msPerMinute) mod 60.
Definition SecFromTime (t : Z) : Z := (t / msPerSecond) mod 60.
Definition msFromTime (t : Z) : Z := t mod msPerSecond.

Definition MakeTime (hour min sec ms : Z) : Z :=
  hour * msPerHour + min * msPerMinute + sec * msPerSecond + ms.
Definition MakeDate (day time : Z) : Z := day * msPerDay + time.

Definition TimeClip (t : Z) : TimeValue :=
  if Z.abs t <=? maxTime then Some t else None.

(** TimeClip of a number: not finite or out of range gives NaN, otherwise the
    number truncated towards zero. *)
Definition TimeClipNum (n : JsNum) : TimeValue :=
  match n with
  | Fin q =>
      if Qle_bool (Qabs q) (inject_Z maxTime)
      then Some (Z.quot (Qnum q) (Zpos (Qden q)))
      else None
  | _ => None
  end.

Section dates.
Context `{Runtime}.

Definition LocalTime (t : Z) : Z := t + LocalTZA t true.
Definition UTC (t : Z) : Z := t - LocalTZA t false.

(** [new Date(value)] for a primitive that is neither [undefined] nor
    [null]: a string is parsed, anything else is converted to a number. *)
Definition newDate (value : JsValue) : TimeValue :=
  match value with
  | VStr s => DateParse s ≫= TimeClip
  | v => TimeClipNum (Number v)
  end.

(** [d.getHours()]; [None] is NaN. *)
Definition getHours (d : TimeValue) : option Z :=
  t ← d; Some (HourFromTime (LocalTime t)).

(** [d.setHours(hour)], returning the new time value of [d]. *)
Definition setHours (d : TimeValue) (hour : option Z) : TimeValue :=
  t ← d;
  h ← hour;
  let t' := LocalTime t in
  let date := MakeDate (Day t')
                (MakeTime h (MinFromTime t') (SecFromTime t') (msFromTime t')) in
  TimeClip (UTC date).

End dates.

End Js.

(** ** A concrete host

    The theorems below hold for every [Js.Runtime].  Concrete evaluations use
    this one: [Number] on strings reads the numeric literals of ECMAScript
    (surrounding white space, sign, decimal digits with fraction and exponent,
    [Infinity], and the [0x], [0o], [0b] prefixes) and gives their exact
    value; [Date.parse] reads [YYYY-MM-DDTHH:mm:ss(.sss)Z]. *)

Module Host.
Import Js.

Definition code (c : ascii) : Z := Z.of_N (N_of_ascii c).

Definition is_space (c : ascii) : bool :=
  (code c =? 32) || ((9 <=? code c) && (code c <=? 13)).

Fixpoint trim_left (cs : list ascii) : list ascii :=
  match cs with
  | c :: r => if is_space c then trim_left r else cs
  | [] => []
  end.

Definition trim (cs : list ascii) : list ascii :=
  rev (trim_left (rev (trim_left cs))).

Definition digit (radix : Z) (c : ascii) : option Z :=
  let n := code c in
  let v := if (48 <=? n) && (n <=? 57) then n - 48
           else if (97 <=? n) && (n <=? 122) then n - 87
           else if (65 <=? n) && (n <=? 90) then n - 55
           else radix in
  if v <? radix then Some v else None.

(** The longest run of digits at the front: its value, its length, the rest. *)
Fixpoint digits (radix : Z) (cs : list ascii) (acc : Z) (len : nat)
  : Z * nat * list ascii :=
  match cs with
  | c :: r =>
      match digit radix c with
      | Some d => digits radix r (acc * radix + d) (S len)
      | None => (acc, len, cs)
      end
  | [] => (acc, len, [])
  end.

Definition sign (cs : list ascii) : bool * list ascii :=
  match cs with
  | "-"%char :: r => (true, r)
  | "+"%char :: r => (false, r)
  | _ => (false, cs)
  end.

Definition exponent (cs : list ascii) : option Z :=
  match cs with
  | [] => Some 0
  | c :: r =>
      if (code c =? 101) || (code c =? 69) then
        let '(neg, r') := sign r in
        match digits 10 r' 0 0 with
        | (v, S _, []) => Some (if neg : bool then - v else v)
        | _ => None
        end
      else None
  end.

Definition pow10 (e : Z) : Q :=
  if 0 <=? e then inject_Z (10 ^ e) else (1 / inject_Z (10 ^ (- e)))%Q.

Definition unsigned_decimal (cs : list ascii) : option Q :=
  let '(i, ni, r1) := digits 10 cs 0 0 in
  let '(f, nf, r2) :=
    match r1 with
    | "."%char :: r => digits 10 r 0 0
    | _ => (0, 0%nat, r1)
    end in
  if (ni + nf =? 0)%nat then None
  else
    e ← exponent r2;
    Some ((inject_Z i + inject_Z f / inject_Z (10 ^ Z.of_nat nf)) * pow10 e)%Q.

Definition decimal_literal (cs : list ascii) : JsNum :=
  let '(neg, r) := sign cs in
  if bool_decide (r = list_ascii_of_string "Infinity") then Inf neg
  else
    match unsigned_decimal r with
    | Some q => Fin (Q2Qc (if neg then - q else q)%Q)
    | None => NaN
    end.

Definition radix_literal (radix : Z) (cs : list ascii) : JsNum :=
  match digits radix cs 0 0 with
  | (v, S _, []) => num_of_Z v
  | _ => NaN
  end.

Definition string_to_number (s : string) : JsNum :=
  match trim (list_ascii_of_string s) with
  | [] => num_of_Z 0
  | ("0"%char :: x :: r) as cs =>
      if (code x =? 120) || (code x =? 88) then radix_literal 16 r
      else if (code x =? 111) || (code x =? 79) then radix_literal 8 r
      else if (code x =? 98) || (code x =? 66) then radix_literal 2 r
      else decimal_literal cs
  | cs => decimal_literal cs
  end.

(** Printing: integers in decimal, other rationals with their fraction
    digits (at most twenty). *)
Fixpoint fraction_digits (fuel : nat) (num den : Z) : string :=
  match fuel with
  | O => ""
  | S fuel' =>
      if num =? 0 then ""
      else pretty (Z.to_N (10 * num / den)) +:+ fraction_digits fuel' ((10 * num) mod den) den
  end.

Definition number_to_string (n : JsNum) : string :=
  match n with
  | NaN => "NaN"
  | Inf false => "Infinity"
  | Inf true => "-Infinity"
  | Fin q =>
      let num := Qnum q in
      let den := Zpos (Qden q) in
      let a := Z.abs num in
      let int := pretty (Z.to_N (a / den)) in
      let frac := fraction_digits 20 (a mod den) den in
      (if num <? 0 then "-" else "") +:+ int +:+
      (if bool_decide (frac = "") then "" else "." +:+ frac)
  end.

(** Days since the epoch of a civil date. *)
Definition days_from_civil (y m d : Z) : Z :=
  let y' := if m <=? 2 then y - 1 else y in
  let era := y' / 400 in
  let yoe := y' - era * 400 in
  let mp := (m + 9) mod 12 in
  let doy := (153 * mp + 2) / 5 + d - 1 in
  let doe := yoe * 365 + yoe / 4 - yoe / 100 + doy in
  era * 146097 + doe - 719468.

Definition is_leap (y : Z) : bool :=
  ((y mod 4 =? 0) && negb (y mod 100 =? 0)) || (y mod 400 =? 0).

Definition days_in_month (y m : Z) : Z :=
  if m =? 2 then (if is_leap y then 29 else 28)
  else if (m =? 4) || (m =? 6) || (m =? 9) || (m =? 11) then 30
  else 31.

Definition number_of (cs : list ascii) : option Z :=
  match digits 10 cs 0 0 with
  | (v, S _, []) => Some v
  | _ => None
  end.

Definition civil_time (y m d h mi s ms : Z) : option Z :=
  if (1 <=? m) && (m <=? 12) && (1 <=? d) && (d <=? days_in_month y m)
     && (h <=? 23) && (mi <=? 59) && (s <=? 59)
  then Some (days_from_civil y m d * msPerDay
             + MakeTime h mi s ms)
  else None.

Definition date_parse (s : string) : option Z :=
  match list_ascii_of_string s with
  | y1 :: y2 :: y3 :: y4 :: "-"%char :: m1 :: m2 :: "-"%char :: d1 :: d2 ::
    "T"%char :: h1 :: h2 :: ":"%char :: n1 :: n2 :: ":"%char :: s1 :: s2 :: rest =>
      y ← number_of [y1; y2; y3; y4];
      m ← number_of [m1; m2];
      d ← number_of [d1; d2];
      h ← number_of [h1; h2];
      mi ← number_of [n1; n2];
      sec ← number_of [s1; s2];
      ms ← match rest with
           | ["Z"%char] => Some 0
           | ["."%char; a; b; c; "Z"%char] => number_of [a; b; c]
           | _ => None
           end;
      civil_time y m d h mi sec ms
  | _ => None
  end.

(** A host whose local zone is [tza]. *)
Definition runtime (tza : Z → bool → Z) : Runtime :=
  {| StringToNumber := string_to_number;
     NumberToString := number_to_string;
     DateParse := date_parse;
     LocalTZA := tza |}.

(** Fixed-offset zones. *)
Definition utc : Z → bool → Z := λ _ _, 0.
Definition ho_chi_minh : Z → bool → Z := λ _ _, 7 * msPerHour.

(** US Eastern time in 2024: daylight saving time from 2024-03-10 07:00 UTC
    (03:00 local) to 2024-11-03 06:00 UTC (02:00 local). *)
Definition new_york_2024 : Z → bool → Z := λ t isUTC,
  let '(from, to) := if isUTC then (1710054000000, 1730613600000)
                     else (1710039600000, 1730599200000) in
  if (from <=? t) && (t <? to) then - 4 * msPerHour else - 5 * msPerHour.

End Host.

(** ** QuoteService *)

Module QuoteService.
Import Js.

(** A value of the internal record: a primitive or a [Date] object. *)
Inductive MainValue : Type :=
| MVal (v : JsValue)
| MDate (d : TimeValue).

#[global] Instance MainValue_eq_dec : EqDecision MainValue.
Proof. solve_decision. Defined.

Definition truthyM (v : MainValue) : bool :=
  match v with
  | MVal v => truthy v
  | MDate _ => true
  end.

Definition mprop (o : gmap string MainValue) (k : string) : MainValue :=
  default (MVal VUndefined) (o !! k).

(** What [saveQuoteIfChanged] can throw. *)
Inductive Thrown : Type :=
| Error (message : string)
| StoreFailure.

(** The calls made on the two mongoose models. *)
Inductive DbOp : Type :=
| MainExists (StockCode : MainValue)
| DnseUpdateOne (symbol : JsValue) (data : gmap string JsValue)
| MainUpdateOne (StockCode : MainValue) (mainQuote : gmap string MainValue).

(** How the stores answer: [exists] resolves to found or not found, or
    rejects ([None]); an [updateOne] resolves ([true]) or rejects. *)
Record Stores : Type := {
  main_exists : MainValue → option bool;
  dnse_updateOne : JsValue → bool;
  main_updateOne : MainValue → bool;
}.

Inductive Completion : Type :=
| Resolved
| Rejected (e : Thrown).

(** The outcome of one call: how the promise settles, the store calls that
    were issued, in order, and the cache afterwards. *)
Record Saved : Type := {
  completion : Completion;
  issued : list DbOp;
  cache_after : gmap JsValue (gmap string JsValue);
}.

Definition is_upsert (op : DbOp) : bool :=
  match op with
  | MainExists _ => false
  | DnseUpdateOne _ _ | MainUpdateOne _ _ => true
  end.

(** Modelled from the spec: [QuoteDnseCacheService] (quote-cache.service),
    the in-memory map holding the last snapshot seen per symbol, read with
    [get(symbol)] and written with [set(symbol, data)]. *)
Definition cache_get (cache : gmap JsValue (gmap string JsValue)) (symbol : JsValue)
  : option (gmap string JsValue) := cache !! symbol.

Definition cache_set (cache : gmap JsValue (gmap string JsValue)) (symbol : JsValue)
    (data : gmap string JsValue) : gmap JsValue (gmap string JsValue) :=
  <[symbol := data]> cache.

(** The change test of [saveQuoteIfChanged]. *)
Definition isChanged (cached : option (gmap string JsValue))
    (data : gmap string JsValue) : bool :=
  match cached with
  | None => true
  | Some cached =>
      strict_neq (prop cached "matchPrice") (prop data "matchPrice")
      || strict_neq (prop cached "totalVolumeTraded") (prop data "totalVolumeTraded")
      || strict_neq (prop cached "matchQuantity") (prop data "matchQuantity")
      || strict_neq (prop cached "changedValue") (prop data "changedValue")
      || strict_neq (prop cached "changedRatio") (prop data "changedRatio")
  end.

Section service.
Context `{Runtime}.
(** [fieldMap] and [marketMap] of map/quote.map: the entries of the field
    table in the order of [Object.entries], with [None] for a [null] source,
    and the market table. *)
Variable fieldMap : list (string * option string).
Variable marketMap : gmap string JsValue.

(** The body of the loop of [mapQuoteToInternalFormat]: the value stored
    under [mainKey]. *)
Definition mapField (quote : gmap string JsValue) (mainKey : string)
    (dnseKey : option string) : MainValue :=
  match dnseKey with
  | None => MVal VNull
  | Some dnseKey =>
      if bool_decide (dnseKey = "") then MVal VNull
      else
        let value := prop quote dnseKey in
        if is_nullish value then MVal VNull
        else if bool_decide (mainKey = "TradingDate") then
          let vnDate := newDate value in
          MDate (setHours vnDate ((λ h, h + 7) <$> getHours vnDate))
        else if bool_decide (mainKey = "MarketID") then
          let marketEnum :=
            let found := prop marketMap (ToPropertyKey value) in
            if is_nullish found then value else found in
          MVal marketEnum
        else
          let num := Number value in
          MVal (if isNaN num then value else VNum num)
  end.

Definition mapQuoteToInternalFormat (quote : gmap string JsValue)
  : gmap string MainValue :=
  foldl (λ result '(mainKey, dnseKey), <[mainKey := mapField quote mainKey dnseKey]> result)
        ∅ fieldMap.

(** [saveQuoteIfChanged] of src/quote/services/quote.service.ts. *)
Definition saveQuoteIfChanged (db : Stores)
    (cache : gmap JsValue (gmap string JsValue)) (data : gmap string JsValue) : Saved :=
  let symbol := prop data "symbol" in
  if negb (truthy symbol) then
    {| completion := Rejected (Error "Symbol is required to save quote");
       issued := []; cache_after := cache |}
  else
    let cached := cache_get cache symbol in
    if negb (isChanged cached data) then
      {| completion := Resolved; issued := []; cache_after := cache |}
    else
      let mainQuote := mapQuoteToInternalFormat data in
      let StockCode := mprop mainQuote "StockCode" in
      if negb (truthyM StockCode) then
        {| completion := Rejected (Error "StockCode missing in mainQuote mapping");
           issued := []; cache_after := cache |}
      else
        let updates := [DnseUpdateOne symbol data; MainUpdateOne StockCode mainQuote] in
        if dnse_updateOne db symbol && main_updateOne db StockCode then
          {| completion := Resolved; issued := updates; cache_after := cache |}
        else
          {| completion := Rejected StoreFailure; issued := updates; cache_after := cache |}.

(** [saveQuoteIfChanged] of the revision of quote.service.ts that checks the
    normalized store and writes the cache (the file kept next to
    mqtt.module.ts). *)
Definition saveQuoteIfChangedChecked (db : Stores)
    (cache : gmap JsValue (gmap string JsValue)) (data : gmap string JsValue) : Saved :=
  let symbol := prop data "symbol" in
  if negb (truthy symbol) then
    {| completion := Rejected (Error "Symbol is required to save quote");
       issued := []; cache_after := cache |}
  else
    let cached := cache_get cache symbol in
    let mainQuote := mapQuoteToInternalFormat data in
    let StockCode := mprop mainQuote "StockCode" in
    if negb (truthyM StockCode) then
      {| completion := Rejected (Error "StockCode missing in mainQuote mapping");
         issued := []; cache_after := cache |}
    else
      let isDnseChanged := isChanged cached data in
      let updates := [DnseUpdateOne symbol data; MainUpdateOne StockCode mainQuote] in
      let save (asked : list DbOp) :=
        if dnse_updateOne db symbol && main_updateOne db StockCode then
          {| completion := Resolved; issued := asked ++ updates;
             cache_after := cache_set cache symbol data |}
        else
          {| completion := Rejected StoreFailure; issued := asked ++ updates;
             cache_after := cache |} in
      if isDnseChanged then save []
      else
        match main_exists db StockCode with
        | None =>
            {| completion := Rejected StoreFailure; issued := [MainExists StockCode];
               cache_after := cache |}
        | Some true =>
            {| completion := Resolved; issued := [MainExists StockCode];
               cache_after := cache |}
        | Some false => save [MainExists StockCode]
        end.

End service.

End QuoteService.

(** ** The earlier MqttService *)

Module MqttService.
Import Js.

Section service.
Context `{Runtime}.

(** [toNumber] inside [normalizeQuote]. *)
Definition toNumber (val : JsValue) : JsValue :=
  let n := Number val in
  if isNaN n then VUndefined else VNum n.

(** The twelve properties [normalizeQuote] rewrites, in source order. *)
Definition numericFields : list string :=
  ["matchPrice"; "matchQuantity"; "totalVolumeTraded"; "listedShares";
   "referencePrice"; "openPrice"; "closePrice"; "averagePrice";
   "highLimitPrice"; "lowLimitPrice"; "changedValue"; "changedRatio"].

(** [normalizeQuote]: a copy of [raw] in which each of the twelve properties
    is set to [toNumber] of its raw value. *)
Definition normalizeQuote (raw : gmap string JsValue) : gmap string JsValue :=
  foldl (λ cleaned k, <[k := toNumber (prop raw k)]> cleaned) raw numericFields.

End service.

(** The jitter of the earlier [scheduleReconnect]:
    [Math.floor(Math.random() * (this.reconnectDelay / 2))]. *)
Definition jitter (random : Q) (reconnectDelay : Z) : Z :=
  Qfloor (random * (inject_Z reconnectDelay / 2)).

End MqttService.

(** ** Sample tables *)

Module Sample.
Import Js QuoteService.

(** Modelled from the spec: [fieldMap] of map/quote.map, an ordered table of
    normalized field name to raw field name or [null], holding the stock
    code, the trading date, the market identifier and the numeric trade
    fields used in change detection. *)
Definition fieldMap : list (string * option string) :=
  [("StockCode", Some "symbol");
   ("TradingDate", Some "tradingDate");
   ("MarketID", Some "marketId");
   ("MatchPrice", Some "matchPrice");
   ("TotalVolumeTraded", Some "totalVolumeTraded");
   ("MatchQuantity", Some "matchQuantity");
   ("ChangedValue", Some "changedValue");
   ("ChangedRatio", Some "changedRatio");
   ("Remarks", None)].

(** Modelled from the spec: [marketMap] of map/quote.map, the lookup table
    for the market identifier. *)
Definition marketMap : gmap string JsValue :=
  {[ "STO" := VStr "HOSE"; "STX" := VStr "HNX"; "UPX" := VStr "UPCOM" ]}.

(** Stores in which nothing is recorded yet and every call resolves. *)
Definition empty_stores : Stores :=
  {| main_exists := λ _, Some false;
     dnse_updateOne := λ _, true;
     main_updateOne := λ _, true |}.

Definition text (s : string) : JsValue := VStr s.
Definition int (z : Z) : JsValue := VNum (num_of_Z z).

Definition quote_FPT : gmap string JsValue :=
  {[ "symbol" := text "FPT"; "matchPrice" := int 100;
     "tradingDate" := text "2024-01-01T00:00:00Z"; "marketId" := text "STO" ]}.

End Sample.

(** ** MqttConnectionManager *)

Module MqttConnectionManager.

(** The fields of the class.  Handles (sessions, timers) are numbers handed
    out by the host.  [reconnectDelay] only ever holds 5000 doubled a few
    times or the cap, integers that doubles represent exactly, so it is kept
    as an integer number of milliseconds. *)
Record Manager : Type := {
  client : option nat;
  isConnecting : bool;
  reconnectTimer : option nat;
  reconnectDelay : Z;
}.

Definition reconnectMax : Z := 15 * 60 * 1000.

(** The manager together with what the host holds for it: the timers that
    are armed (handle to delay in milliseconds), the sessions that are open,
    and the next free handle. *)
Record World : Type := {
  manager : Manager;
  timers : gmap nat Q;
  sessions : gset nat;
  fresh : nat;
}.

Inductive Effect : Type :=
| Alert (subject : string)
| GetToken
| OpenSession (handle : nat) (brokerUrl clientId username password : string)
| RegisterEvents (handle : nat) (topic : string)
| EndSession (handle : nat)
| SetTimeout (handle : nat) (delay : Q)
| ClearTimeout (handle : nat)
| Log (message : string)
| LogReconnect (seconds : Q).

Definition opens_session (e : Effect) : bool :=
  match e with OpenSession _ _ _ _ _ => true | _ => false end.

Definition arms_timer (e : Effect) : bool :=
  match e with SetTimeout _ _ => true | _ => false end.

(** The state after construction. *)
Definition initial : World :=
  {| manager := {| client := None; isConnecting := false;
                   reconnectTimer := None; reconnectDelay := 5000 |};
     timers := ∅; sessions := ∅; fresh := 0 |}.

Definition with_manager (m : Manager) (w : World) : World :=
  {| manager := m; timers := timers w; sessions := sessions w; fresh := fresh w |}.

Definition set_isConnecting (b : bool) (w : World) : World :=
  with_manager {| client := client (manager w); isConnecting := b;
                  reconnectTimer := reconnectTimer (manager w);
                  reconnectDelay := reconnectDelay (manager w) |} w.

(** [clearTimeout(this.reconnectTimer)] under [if (this.reconnectTimer)]. *)
Definition clear_reconnectTimer (w : World) : gmap nat Q * list Effect :=
  match reconnectTimer (manager w) with
  | Some h => (delete h (timers w), [ClearTimeout h])
  | None => (timers w, [])
  end.

(** [Math.random() * (this.reconnectDelay / 2)].  Halving is exact in double
    arithmetic; the product is taken exactly here, where the double product
    is its rounding. *)
Definition jitter (random : Q) (reconnectDelay : Z) : Q :=
  (random * (inject_Z reconnectDelay / 2))%Q.

(** [scheduleReconnect()].  [trading] is what [isTradingTime()] answers and
    [random] what [Math.random()] returns. *)
Definition scheduleReconnect (trading : bool) (random : Q) (w : World)
  : World * list Effect :=
  if negb trading then (w, [])
  else
    let m := manager w in
    let '(armed, cleared) := clear_reconnectTimer w in
    let delay := (inject_Z (reconnectDelay m) + jitter random (reconnectDelay m))%Q in
    let h := fresh w in
    ({| manager := {| client := client m; isConnecting := isConnecting m;
                      reconnectTimer := Some h;
                      reconnectDelay := Z.min (reconnectDelay m * 2) reconnectMax |};
        timers := <[h := delay]> armed;
        sessions := sessions w;
        fresh := S h |},
     cleared ++ [LogReconnect (delay / 1000); SetTimeout h delay]).

(** [end()]. *)
Definition end_ (w : World) : World * list Effect :=
  let m := manager w in
  let '(armed, cleared) := clear_reconnectTimer w in
  let '(open, ended) :=
    match client m with
    | Some c => (sessions w ∖ {[c]}, [EndSession c])
    | None => (sessions w, [])
    end in
  ({| manager := {| client := None; isConnecting := isConnecting m;
                    reconnectTimer := reconnectTimer m;
                    reconnectDelay := 5000 |};
      timers := armed; sessions := open; fresh := fresh w |},
   cleared ++ ended).

(** *** connect()

    [connect] is an async function: it runs until an [await], and goes on
    when the awaited promise settles, other callbacks running in between.
    [Suspended] names the four [await]s of the body. *)
Inductive Suspended : Type :=
| AtSkipAlert        (* the alert inside the trading-hours guard *)
| AtToken            (* authService.getValidToken() *)
| AtMissingUrlAlert  (* the alert for a missing broker url *)
| AtErrorAlert.      (* the alert inside the catch block *)

(** How opening the session goes: [connect(brokerUrl, options)] throws, or
    it returns a client and [registerMqttEvents] throws, or both return. *)
Inductive Opening : Type :=
| ConnectThrows
| RegisterThrows
| Opened.

(** What one attempt finds: the credentials ([None]: the promise rejects),
    the configuration, the random suffix of the client id, and how opening
    the session goes. *)
Record Attempt : Type := {
  auth : option (string * string);
  BROKER_URL : option string;
  TOPIC : option string;
  CLIENT_ID : option string;
  suffix : string;
  opens : Opening;
}.

(** What a suspended call is resumed with.  Modelled from the spec: the
    alert service of mqtt-alert.service never throws, so the three alert
    [await]s always resume normally. *)
Inductive Resume : Type :=
| ResumeSkipAlert
| ResumeToken (a : Attempt)
| ResumeMissingUrlAlert
| ResumeErrorAlert (trading : bool) (random : Q).

Definition point (r : Resume) : Suspended :=
  match r with
  | ResumeSkipAlert => AtSkipAlert
  | ResumeToken _ => AtToken
  | ResumeMissingUrlAlert => AtMissingUrlAlert
  | ResumeErrorAlert _ _ => AtErrorAlert
  end.

(** [connect()] from its call to its first [await] or its return. *)
Definition connect_enter (trading : bool) (w : World)
  : World * list Effect * option Suspended :=
  if negb trading then (w, [Alert "MQTT Connect Skipped"], Some AtSkipAlert)
  else if isConnecting (manager w) then
    (w, [Log "Connect already in progress, skipping duplicate call"], None)
  else (set_isConnecting true w, [GetToken], Some AtToken).

(** [connect()] from one [await] to the next, or to its return; the
    [finally] block runs on every way out of the [try]. *)
Definition connect_resume (r : Resume) (w : World)
  : World * list Effect * option Suspended :=
  match r with
  | ResumeSkipAlert => (w, [], None)
  | ResumeToken a =>
      match auth a with
      | None => (w, [Alert "MQTT Connection Error"], Some AtErrorAlert)
      | Some (token, investorId) =>
          match BROKER_URL a with
          | None => (w, [Alert "Missing Broker Url"], Some AtMissingUrlAlert)
          | Some brokerUrl =>
              if bool_decide (brokerUrl = "") then
                (w, [Alert "Missing Broker Url"], Some AtMissingUrlAlert)
              else
                let clientId := default "undefined" (CLIENT_ID a) +:+ "-" +:+ suffix a in
                let h := fresh w in
                match opens a with
                | ConnectThrows =>
                    (w, [Alert "MQTT Connection Error"], Some AtErrorAlert)
                | RegisterThrows =>
                    ({| manager := {| client := Some h;
                                      isConnecting := isConnecting (manager w);
                                      reconnectTimer := reconnectTimer (manager w);
                                      reconnectDelay := reconnectDelay (manager w) |};
                        timers := timers w;
                        sessions := {[h]} ∪ sessions w;
                        fresh := S h |},
                     [OpenSession h brokerUrl clientId investorId token;
                      Alert "MQTT Connection Error"], Some AtErrorAlert)
                | Opened =>
                    ({| manager := {| client := Some h; isConnecting := false;
                                      reconnectTimer := reconnectTimer (manager w);
                                      reconnectDelay := 5000 |};
                        timers := timers w;
                        sessions := {[h]} ∪ sessions w;
                        fresh := S h |},
                     [OpenSession h brokerUrl clientId investorId token;
                      RegisterEvents h (default "" (TOPIC a));
                      Log "MQTT connected"], None)
                end
          end
      end
  | ResumeMissingUrlAlert => (set_isConnecting false w, [], None)
  | ResumeErrorAlert trading random =>
      let '(w', es) := scheduleReconnect trading random w in
      (set_isConnecting false w', es, None)
  end.

(** One whole call of [connect()] with nothing running in between: the
    answer of [isTradingTime()] on entry, what the attempt finds, and the
    answers of [isTradingTime()] and [Math.random()] inside
    [scheduleReconnect] should the catch block be reached. *)
Record Call : Type := {
  trading : bool;
  attempt : Attempt;
  trading_later : bool;
  random : Q;
}.

Definition resume_of (c : Call) (s : Suspended) : Resume :=
  match s with
  | AtSkipAlert => ResumeSkipAlert
  | AtToken => ResumeToken (attempt c)
  | AtMissingUrlAlert => ResumeMissingUrlAlert
  | AtErrorAlert => ResumeErrorAlert (trading_later c) (random c)
  end.

(** Resumes the call up to [fuel] times; what is left suspended, if
    anything, is returned too. *)
Fixpoint settle (fuel : nat) (c : Call) (s : option Suspended) (w : World)
    (es : list Effect) : World * list Effect * option Suspended :=
  match s, fuel with
  | Some at_, S fuel' =>
      let '(w', es', s') := connect_resume (resume_of c at_) w in
      settle fuel' c s' w' (es ++ es')
  | _, _ => (w, es, s)
  end.

Definition connect_run (c : Call) (w : World)
  : World * list Effect * option Suspended :=
  let '(w', es, s) := connect_enter (trading c) w in
  settle 3 c s w' es.

(** The call has returned after at most three resumptions (see
    [connect_returns]). *)
Definition connect (c : Call) (w : World) : World * list Effect :=
  (connect_run c w).1.

(** A sequence of calls of [connect()], one after the other. *)
Definition attempts (cs : list Call) (w : World) : World :=
  foldl (λ w c, (connect c w).1) w cs.

(** *** The manager among the other callbacks *)

Inductive Event : Type :=
| CallConnect (trading : bool)
| Continue (r : Resume)
| TimerFires (handle : nat) (trading : bool)
| TransportDown (trading : bool) (random : Q)
| CallEnd.

(** The world and the calls of [connect()] that are suspended. *)
Record System : Type := {
  world : World;
  waiting : list Suspended;
}.

Definition start : System := {| world := initial; waiting := [] |}.

Definition enter (trading : bool) (w : World) (ws : list Suspended)
  : System * list Effect :=
  let '(w', es, s) := connect_enter trading w in
  ({| world := w'; waiting := option_list s ++ ws |}, es).

#[global] Instance Suspended_eq_dec : EqDecision Suspended.
Proof. solve_decision. Defined.

(** Removes the first occurrence of [s]. *)
Fixpoint remove_first (s : Suspended) (ws : list Suspended) : option (list Suspended) :=
  match ws with
  | [] => None
  | s' :: ws' =>
      if bool_decide (s' = s) then Some ws'
      else (λ r, s' :: r) <$> remove_first s ws'
  end.

(** One callback runs to its next [await]: the state it leaves and what it
    did; [None] when the event cannot happen (no such suspended call, no
    such armed timer). *)
Definition step (e : Event) (s : System) : option (System * list Effect) :=
  match e with
  | CallConnect trading => Some (enter trading (world s) (waiting s))
  | Continue r =>
      ws ← remove_first (point r) (waiting s);
      let '(w', es, s') := connect_resume r (world s) in
      Some ({| world := w'; waiting := option_list s' ++ ws |}, es)
  | TimerFires h trading =>
      _ ← timers (world s) !! h;
      let w := world s in
      let w' := {| manager := manager w; timers := delete h (timers w);
                   sessions := sessions w; fresh := fresh w |} in
      Some (enter trading w' (waiting s))
  | TransportDown trading random =>
      let '(w', es) := scheduleReconnect trading random (world s) in
      Some ({| world := w'; waiting := waiting s |}, es)
  | CallEnd =>
      let '(w', es) := end_ (world s) in
      Some ({| world := w'; waiting := waiting s |}, es)
  end.

(** A run of events, [None] as soon as one of them cannot happen. *)
Definition run (es : list Event) (s : System) : option System :=
  foldl (λ s e, s ≫= λ s, fst <$> step e s) (Some s) es.

Inductive reachable : System → Prop :=
| reachable_start : reachable start
| reachable_step e s s' es :
    reachable s → step e s = Some (s', es) → reachable s'.

(** *** Events in time

    An event together with what the trading-window predicate is at the
    moment it happens. *)
Record Moment : Type := {
  window : bool;
  happening : Event;
}.

(** The answer of [isTradingTime()] that the callback of an event takes as
    given, if it consults the predicate at all. *)
Definition consults (e : Event) : option bool :=
  match e with
  | CallConnect t | TimerFires _ t | TransportDown t _
  | Continue (ResumeErrorAlert t _) => Some t
  | Continue _ | CallEnd => None
  end.

(** The answer is that of the moment. *)
Definition faithful (m : Moment) : bool :=
  match consults (happening m) with
  | Some t => bool_decide (t = window m)
  | None => true
  end.

(** A run of moments: the final state and every effect, each with the state
    of the window at the time. *)
Definition timeline (ms : list Moment) (s : System)
  : option (System * list (bool * Effect)) :=
  foldl (λ acc m,
           '(s, trace) ← acc;
           if faithful m then
             '(s', es) ← step (happening m) s;
             Some (s', trace ++ ((λ e, (window m, e)) <$> es))
           else None)
        (Some (s, [])) ms.

End MqttConnectionManager.

(** ** Vocabulary of the statements about the connection manager *)

Module Backoff.
Import MqttConnectionManager.

(** How a whole call of [connect()] ends, read off what it is given. *)
Inductive Verdict : Type :=
| Skipped            (* outside trading hours *)
| MissingUrl         (* alert, no reconnect *)
| FailedScheduled    (* caught, and the reconnect was scheduled *)
| FailedUnscheduled  (* caught, but trading hours were over *)
| Connected.

Definition failed (c : Call) : Verdict :=
  if trading_later c then FailedScheduled else FailedUnscheduled.

Definition verdict (c : Call) : Verdict :=
  if negb (trading c) then Skipped
  else
    match auth (attempt c), BROKER_URL (attempt c) with
    | None, _ => failed c
    | Some _, None => MissingUrl
    | Some _, Some url =>
        if bool_decide (url = "") then MissingUrl
        else match opens (attempt c) with
             | Opened => Connected
             | ConnectThrows | RegisterThrows => failed c
             end
    end.

(** The number of failed attempts with a scheduled reconnect since the last
    successful connect. *)
Definition streak (cs : list Call) : nat :=
  foldl (λ k c, match verdict c with
                | Connected => O
                | FailedScheduled => S k
                | _ => k
                end) O cs.

(** The base delay doubled [k] times, capped. *)
Definition backoff (k : nat) : Z := Z.min (5000 * 2 ^ Z.of_nat k) reconnectMax.

Definition delay_after (cs : list Call) : Z :=
  reconnectDelay (manager (attempts cs initial)).

(** Calls made by other callbacks while the trading-window predicate is
    consulted. *)
Inductive Op : Type :=
| OpConnect (c : Call)
| OpScheduleReconnect (trading : bool) (random : Q).

Definition op_trading (o : Op) : bool :=
  match o with
  | OpConnect c => trading c
  | OpScheduleReconnect t _ => t
  end.

Definition perform1 (o : Op) (w : World) : World * list Effect :=
  match o with
  | OpConnect c => connect c w
  | OpScheduleReconnect t r => scheduleReconnect t r w
  end.

Definition perform (ops : list Op) (w : World) : World * list Effect :=
  foldl (λ '(w, es) o, let '(w', es') := perform1 o w in (w', es ++ es')) (w, []) ops.

Definition quiet (e : Effect) : bool :=
  negb (opens_session e) && negb (arms_timer e).

(** Every armed timer is the one the manager holds in [reconnectTimer]. *)
Definition owns_timers (w : World) : Prop :=
  ∀ h, is_Some (timers w !! h) → reconnectTimer (manager w) = Some h.

Definition delay_in_range (w : World) : Prop :=
  5000 ≤ reconnectDelay (manager w) ≤ reconnectMax.

Definition invariant (w : World) : Prop := delay_in_range w ∧ owns_timers w.

(** The system right after a first call of [connect()] inside trading hours:
    the call is waiting for the token and the guard is up. *)
Definition connecting : System := (enter true initial []).1.

End Backoff.

(** ** The service as a whole *)

Module App.
Import Js QuoteService.

(** The connection manager and the snapshot cache of the quote service side
    by side. *)
Record Service : Type := {
  connection : MqttConnectionManager.World;
  quoteCache : gmap JsValue (gmap string JsValue);
}.

Section handlers.
Context `{Runtime}.
Variable fieldMap : list (string * option string).
Variable marketMap : gmap string JsValue.

(** The message callback that [connect()] registers:
    [(json) => void this.quoteService.saveQuoteIfChanged(json)]. *)
Definition onMessage (db : Stores) (json : gmap string JsValue) (s : Service)
  : Service * Saved :=
  let saved := saveQuoteIfChanged fieldMap marketMap db (quoteCache s) json in
  ({| connection := connection s; quoteCache := cache_after saved |}, saved).

End handlers.

(** The five properties compared for change detection. *)
Definition compared : list string :=
  ["matchPrice"; "totalVolumeTraded"; "matchQuantity"; "changedValue"; "changedRatio"].

(** No snapshot is cached for the symbol of [data], or one of the five
    compared properties differs from it. *)
Definition differs_from_cache (cache : gmap JsValue (gmap string JsValue))
    (data : gmap string JsValue) : Prop :=
  match cache_get cache (prop data "symbol") with
  | None => True
  | Some cached => ∃ k, k ∈ compared ∧ strict_eq (prop cached k) (prop data k) = false
  end.

(** A snapshot is cached and the five compared properties all equal it. *)
Definition equals_cache (cache : gmap JsValue (gmap string JsValue))
    (data : gmap string JsValue) : Prop :=
  ∃ cached, cache_get cache (prop data "symbol") = Some cached
            ∧ ∀ k, k ∈ compared → strict_eq (prop cached k) (prop data k) = true.

(** Modelled from the spec: the snapshot cache ([QuoteDnseCacheService],
    quote-cache.service) is an in-memory map, empty when the service starts,
    that only the quote service writes.  The caches a revision [handle] of
    [saveQuoteIfChanged] can meet are therefore the empty one and what its
    own earlier calls, on any quotes and with any outcome of the stores,
    have left. *)
Inductive produced
    (handle : Stores → gmap JsValue (gmap string JsValue) → gmap string JsValue → Saved)
  : gmap JsValue (gmap string JsValue) → Prop :=
| produced_empty : produced handle ∅
| produced_call db cache data :
    produced handle cache → produced handle (cache_after (handle db cache data)).

(** The two upserts of one save, raw store first. *)
Definition both_upserts (symbol : JsValue) (data : gmap string JsValue)
    (StockCode : MainValue) (mainQuote : gmap string MainValue) : list DbOp :=
  [DnseUpdateOne symbol data; MainUpdateOne StockCode mainQuote].

(** The keys of the field table are pairwise different, as the keys of an
    object are. *)
Definition distinct_keys (fieldMap : list (string * option string)) : Prop :=
  NoDup fieldMap.*1.

(** A value is absent: [null] or [undefined]. *)
Definition absent (v : MainValue) : Prop :=
  v = MVal VNull ∨ v = MVal VUndefined.

Definition is_zero (v : MainValue) : Prop :=
  v = MVal (VNum (num_of_Z 0)).

End App.

(** More sample data. *)

Module Inputs.
Import Js QuoteService Sample MqttConnectionManager.

(** A quote whose symbol reads as the number zero. *)
Definition quote_zero : gmap string JsValue :=
  {[ "symbol" := text "0"; "matchPrice" := int 100 ]}.

(** A quote whose price arrives as text that is not a number. *)
Definition quote_text_price : gmap string JsValue :=
  {[ "symbol" := text "FPT"; "matchPrice" := text "abc" ]}.

(** A quote whose trading date cannot be parsed. *)
Definition quote_bad_date : gmap string JsValue :=
  {[ "symbol" := text "FPT"; "tradingDate" := text "not a date" ]}.

(** A quote dated local midnight of the night the clocks go forward in New
    York. *)
Definition quote_dst : gmap string JsValue :=
  {[ "symbol" := text "FPT"; "tradingDate" := text "2024-03-10T05:00:00Z" ]}.

(** Stores in which the normalized store rejects its [updateOne]. *)
Definition main_store_down : Stores :=
  {| main_exists := λ _, Some false;
     dnse_updateOne := λ _, true;
     main_updateOne := λ _, false |}.

Definition failing_attempt : Attempt :=
  {| auth := None; BROKER_URL := Some "wss://broker"; TOPIC := Some "quotes";
     CLIENT_ID := Some "svc"; suffix := "a1b2c"; opens := Opened |}.

Definition good_attempt : Attempt :=
  {| auth := Some ("token", "investor"); BROKER_URL := Some "wss://broker";
     TOPIC := Some "quotes"; CLIENT_ID := Some "svc"; suffix := "a1b2c";
     opens := Opened |}.

(** A connect inside trading hours that succeeds, then one whose token
    request fails and whose reconnect gets scheduled. *)
Definition retry_events : list Event :=
  [CallConnect true; Continue (ResumeToken good_attempt);
   CallConnect true; Continue (ResumeToken failing_attempt);
   Continue (ResumeErrorAlert true (1 # 2))].

(** The state those events lead to: a session is open, a reconnect timer is
    armed and the delay has doubled. *)
Definition retrying : System := default start (run retry_events start).

(** The sample tables on a host whose local zone is UTC, and on hosts in
    other zones. *)
Definition host : Js.Runtime := Host.runtime Host.utc.
Definition host_new_york : Js.Runtime := Host.runtime Host.new_york_2024.

Definition mapQuote_utc : gmap string JsValue → gmap string MainValue :=
  @mapQuoteToInternalFormat host fieldMap marketMap.
Definition mapQuote_new_york : gmap string JsValue → gmap string MainValue :=
  @mapQuoteToInternalFormat host_new_york fieldMap marketMap.
Definition save_utc : Stores → gmap JsValue (gmap string JsValue) →
    gmap string JsValue → Saved :=
  @saveQuoteIfChanged host fieldMap marketMap.
Definition saveChecked_utc : Stores → gmap JsValue (gmap string JsValue) →
    gmap string JsValue → Saved :=
  @saveQuoteIfChangedChecked host fieldMap marketMap.

(** A cache that already holds the quote that comes in. *)
Definition cache_FPT : gmap JsValue (gmap string JsValue) :=
  cache_set ∅ (text "FPT") quote_FPT.

(** Three failed attempts in a row, each with its reconnect scheduled, then
    a successful one. *)
Definition failing_call : Call :=
  {| trading := true; attempt := failing_attempt; trading_later := true;
     random := 1 # 2 |}.
Definition good_call : Call :=
  {| trading := true; attempt := good_attempt; trading_later := true;
     random := 1 # 2 |}.

(** A [connect()] entered while the trading window is open whose credential
    request returns after the window has closed. *)
Definition straddling : list Moment :=
  [{| window := true; happening := CallConnect true |};
   {| window := false; happening := Continue (ResumeToken good_attempt) |}].

End Inputs.

(** ** The earlier MqttService with cron sessions and a health check

    The class of the earlier revision that has the session crons, the
    health check and its own [scheduleReconnect] and [connectToBroker]. *)

Module MqttServiceCron.

(** The fields of the class. *)
Record Fields : Type := {
  client : option nat;
  lastMessageTime : Z;
  healthInterval : option nat;
  reconnectTimer : option nat;
  reconnectDelay : Z;
}.

(** The fields together with what the host holds: the armed timers (handle
    to delay), the running intervals, the open sessions, the next handle. *)
Record State : Type := {
  fields : Fields;
  timers : gmap nat Z;
  intervals : gset nat;
  sessions : gset nat;
  fresh : nat;
}.

Inductive Effect : Type :=
| SendError (subject : string)
| GetToken
| OpenSession (handle : nat) (brokerUrl clientId username password : string)
| RegisterEvents (handle : nat) (topic : option string)
| EndSession (handle : nat)
| SetTimeout (handle : nat) (delay : Z)
| ClearTimeout (handle : nat)
| SetInterval (handle : nat) (period : Z)
| ClearInterval (handle : nat)
| SaveQuote (json : gmap string Js.JsValue).

(** The state after construction at time [now]. *)
Definition initial (now : Z) : State :=
  {| fields := {| client := None; lastMessageTime := now; healthInterval := None;
                  reconnectTimer := None; reconnectDelay := 5000 |};
     timers := ∅; intervals := ∅; sessions := ∅; fresh := 0 |}.

Definition with_fields (f : Fields) (s : State) : State :=
  {| fields := f; timers := timers s; intervals := intervals s;
     sessions := sessions s; fresh := fresh s |}.

(** [this.client?.end(true)]. *)
Definition end_client (s : State) : State * list Effect :=
  match client (fields s) with
  | Some c =>
      ({| fields := fields s; timers := timers s; intervals := intervals s;
          sessions := sessions s ∖ {[c]}; fresh := fresh s |}, [EndSession c])
  | None => (s, [])
  end.

(** [scheduleReconnect()]; [random] is what [Math.random()] returns. *)
Definition scheduleReconnect (random : Q) (s : State) : State * list Effect :=
  let f := fields s in
  let '(armed, cleared) :=
    match reconnectTimer f with
    | Some h => (delete h (timers s), [ClearTimeout h])
    | None => (timers s, [])
    end in
  let jitter := MqttService.jitter random (reconnectDelay f) in
  let delay := reconnectDelay f + jitter in
  let h := fresh s in
  ({| fields := {| client := client f; lastMessageTime := lastMessageTime f;
                   healthInterval := healthInterval f;
                   reconnectTimer := Some h;
                   reconnectDelay := Z.min (reconnectDelay f * 2) (15 * 60 * 1000) |};
      timers := <[h := delay]> armed;
      intervals := intervals s; sessions := sessions s; fresh := S h |},
   cleared ++ [SetTimeout h delay]).

(** [startHealthCheck()]: the interval of five minutes. *)
Definition startHealthCheck (s : State) : State * list Effect :=
  let f := fields s in
  let h := fresh s in
  ({| fields := {| client := client f; lastMessageTime := lastMessageTime f;
                   healthInterval := Some h;
                   reconnectTimer := reconnectTimer f;
                   reconnectDelay := reconnectDelay f |};
      timers := timers s; intervals := {[h]} ∪ intervals s;
      sessions := sessions s; fresh := S h |},
   [SetInterval h (5 * 60 * 1000)]).

(** [stopHealthCheck()]. *)
Definition stopHealthCheck (s : State) : State * list Effect :=
  let f := fields s in
  match healthInterval f with
  | Some h =>
      ({| fields := {| client := client f; lastMessageTime := lastMessageTime f;
                       healthInterval := None;
                       reconnectTimer := reconnectTimer f;
                       reconnectDelay := reconnectDelay f |};
          timers := timers s; intervals := intervals s ∖ {[h]};
          sessions := sessions s; fresh := fresh s |},
       [ClearInterval h])
  | None => (s, [])
  end.

(** What one attempt finds, as for the connection manager; the broker
    address is read under the key [BROKEN_URL]. *)
Record Found : Type := {
  auth : option (string * string);
  BROKEN_URL : option string;
  TOPIC : option string;
  CLIENT_ID : option string;
  suffix : string;
  opens : MqttConnectionManager.Opening;
}.

(** The two [await]s of [connectToBroker]. *)
Inductive Suspended : Type :=
| AtToken
| AtErrorAlert.

#[global] Instance Suspended_eq_dec : EqDecision Suspended.
Proof. solve_decision. Defined.

(** Modelled from the spec: [sendError] of the alert service never throws,
    so the [await] in the catch block resumes normally. *)
Inductive Resume : Type :=
| ResumeToken (found : Found)
| ResumeErrorAlert (random : Q).

Definition point (r : Resume) : Suspended :=
  match r with
  | ResumeToken _ => AtToken
  | ResumeErrorAlert _ => AtErrorAlert
  end.

(** [connectToBroker()] up to its first [await]. *)
Definition connectToBroker_enter (trading : bool) (s : State)
  : State * list Effect * option Suspended :=
  if negb trading then (s, [], None)
  else (s, [GetToken], Some AtToken).

(** [connectToBroker()] from one [await] on. *)
Definition connectToBroker_resume (r : Resume) (s : State)
  : State * list Effect * option Suspended :=
  let caught (s : State) (es : list Effect) :=
    (s, es ++ [SendError "MQTT Connect Error"], Some AtErrorAlert) in
  match r with
  | ResumeToken found =>
      match auth found, BROKEN_URL found with
      | None, _ | Some _, None => caught s []
      | Some (token, investorId), Some brokerUrl =>
          if bool_decide (brokerUrl = "") then caught s []
          else
            let clientId :=
              default "undefined" (CLIENT_ID found) +:+ "-" +:+ suffix found in
            let h := fresh s in
            let f := fields s in
            let opened :=
              {| fields := {| client := Some h; lastMessageTime := lastMessageTime f;
                              healthInterval := healthInterval f;
                              reconnectTimer := reconnectTimer f;
                              reconnectDelay := reconnectDelay f |};
                 timers := timers s; intervals := intervals s;
                 sessions := {[h]} ∪ sessions s; fresh := S h |} in
            match opens found with
            | MqttConnectionManager.ConnectThrows => caught s []
            | MqttConnectionManager.RegisterThrows =>
                caught opened [OpenSession h brokerUrl clientId investorId token]
            | MqttConnectionManager.Opened =>
                (opened, [OpenSession h brokerUrl clientId investorId token;
                          RegisterEvents h (TOPIC found)], None)
            end
      end
  | ResumeErrorAlert random =>
      let '(s', es) := scheduleReconnect random s in (s', es, None)
  end.

Inductive Event : Type :=
| ModuleInit (trading : bool)
| ModuleDestroy
| CronStartSession (trading : bool)
| CronEndSession
| HealthTick (handle : nat) (now : Z) (trading : bool)
| TimerFires (handle : nat) (trading : bool)
| TransportDown (random : Q)
| MessageArrives (json : gmap string Js.JsValue)
| Continue (r : Resume).

(** The state and the calls of [connectToBroker()] that are suspended, each
    with whether [startHealthCheck()] is to run when it returns (the call
    made by [onModuleInit]). *)
Record System : Type := {
  state : State;
  waiting : list (Suspended * bool);
}.

Definition start (now : Z) : System := {| state := initial now; waiting := [] |}.

(** What happens when a call of [connectToBroker()] that was (or is to be)
    awaited has run to [next]. *)
Definition after_call (then_health : bool) (next : option Suspended) (s : State)
    (es : list Effect) (ws : list (Suspended * bool)) : System * list Effect :=
  match next with
  | Some at_ => ({| state := s; waiting := (at_, then_health) :: ws |}, es)
  | None =>
      if then_health then
        let '(s', es') := startHealthCheck s in
        ({| state := s'; waiting := ws |}, es ++ es')
      else ({| state := s; waiting := ws |}, es)
  end.

Definition call_connect (then_health trading : bool) (s : State)
    (es : list Effect) (ws : list (Suspended * bool)) : System * list Effect :=
  let '(s', es', next) := connectToBroker_enter trading s in
  after_call then_health next s' (es ++ es') ws.

(** Takes out the first suspended call waiting at [p]. *)
Fixpoint take (p : Suspended) (ws : list (Suspended * bool))
  : option (bool * list (Suspended * bool)) :=
  match ws with
  | [] => None
  | (p', b) :: ws' =>
      if bool_decide (p' = p) then Some (b, ws')
      else '(b', rest) ← take p ws'; Some (b', (p', b) :: rest)
  end.

(** One callback of the class, run to its next [await]. *)
Definition step (e : Event) (sys : System) : option (System * list Effect) :=
  let s := state sys in
  let ws := waiting sys in
  match e with
  | ModuleInit trading =>
      if trading then Some (call_connect true trading s [] ws)
      else Some (after_call true None s [] ws)
  | ModuleDestroy =>
      let '(s1, es1) := stopHealthCheck s in
      let '(s2, es2) := end_client s1 in
      Some ({| state := s2; waiting := ws |}, es1 ++ es2)
  | CronStartSession trading => Some (call_connect false trading s [] ws)
  | CronEndSession =>
      let '(s1, es1) := end_client s in
      let f := fields s1 in
      Some ({| state := with_fields
                          {| client := None; lastMessageTime := lastMessageTime f;
                             healthInterval := healthInterval f;
                             reconnectTimer := reconnectTimer f;
                             reconnectDelay := reconnectDelay f |} s1;
               waiting := ws |}, es1)
  | HealthTick h now trading =>
      if bool_decide (h ∈ intervals s) then
        let diff := now - lastMessageTime (fields s) in
        if 15 * 60 * 1000 <? diff then
          let '(s1, es1) := end_client s in
          Some (call_connect false trading s1 (SendError "MQTT Health Check" :: es1) ws)
        else Some (sys, [])
      else None
  | TimerFires h trading =>
      _ ← timers s !! h;
      let s1 := {| fields := fields s; timers := delete h (timers s);
                   intervals := intervals s; sessions := sessions s;
                   fresh := fresh s |} in
      Some (call_connect false trading s1 [] ws)
  | TransportDown random =>
      let '(s1, es1) := scheduleReconnect random s in
      Some ({| state := s1; waiting := ws |}, es1)
  | MessageArrives json => Some (sys, [SaveQuote json])
  | Continue r =>
      '(then_health, rest) ← take (point r) ws;
      let '(s1, es1, next) := connectToBroker_resume r s in
      Some (after_call then_health next s1 es1 rest)
  end.

Inductive reachable (now : Z) : System → Prop :=
| reachable_start : reachable now (start now)
| reachable_step e s s' es :
    reachable now s → step e s = Some (s', es) → reachable now s'.

Definition run (es : list Event) (s : System) : option System :=
  foldl (λ s e, s ≫= λ s, fst <$> step e s) (Some s) es.

End MqttServiceCron.

(** ** Vocabulary of the further statements *)

Module Further.
Import Js QuoteService MqttConnectionManager.

(** The suspended calls of [connect()] that are past the guard. *)
Definition past_guard (p : Suspended) : bool :=
  match p with
  | AtSkipAlert => false
  | AtToken | AtMissingUrlAlert | AtErrorAlert => true
  end.

(** How many suspended calls of [connect()] are past the guard. *)
Fixpoint in_flight (ws : list Suspended) : nat :=
  match ws with
  | [] => 0
  | p :: ws => (if past_guard p then 1 else 0) + in_flight ws
  end.

(** The guard is up exactly when one suspended call is past it. *)
Definition guard_counts (s : System) : Prop :=
  in_flight (waiting s) = if isConnecting (manager (world s)) then 1%nat else 0%nat.

(** The events that run code of [connect()]: a call, a reconnect timer
    that fires, a resumption after an [await]. *)
Definition calls_connect (e : Event) : bool :=
  match e with
  | CallConnect _ | Continue _ | TimerFires _ _ => true
  | TransportDown _ _ | CallEnd => false
  end.

(** What the manager's code may do to the sessions between two states: the
    open ones stay open, no session is ended, and a client that was not
    held before is a session that is open now. *)
Definition keeps_sessions (w w' : World) (es : list Effect) : Prop :=
  sessions w ⊆ sessions w'
  ∧ (∀ h, EndSession h ∉ es)
  ∧ (∀ new, client (manager w') = Some new →
            client (manager w) ≠ Some new → new ∈ sessions w').

(** The names every plain object inherits from [Object.prototype]: reading
    one of them from the market table (an object literal) finds the
    inherited property, which the table as a finite map does not hold. *)
Definition Object_prototype_names : list string :=
  ["constructor"; "__defineGetter__"; "__defineSetter__"; "hasOwnProperty";
   "__lookupGetter__"; "__lookupSetter__"; "isPrototypeOf";
   "propertyIsEnumerable"; "toString"; "valueOf"; "__proto__"; "toLocaleString"].

Section saves.
Context `{Runtime}.
Variable fieldMap : list (string * option string).
Variable marketMap : gmap string JsValue.

(** A sequence of messages handled one after the other by
    [saveQuoteIfChanged] of quote.service.ts: the cache at the end and what
    each call issued. *)
Definition saveEach (db : Stores) (quotes : list (gmap string JsValue))
    (cache : gmap JsValue (gmap string JsValue))
  : gmap JsValue (gmap string JsValue) * list (list DbOp) :=
  foldl (λ '(cache, log) data,
           let saved := saveQuoteIfChanged fieldMap marketMap db cache data in
           (cache_after saved, log ++ [issued saved]))
        (cache, []) quotes.

End saves.

(** What the earlier service keeps in every reachable state: the time of
    the last message is the time of construction, the delay is between the
    base and the cap, and every armed timer is the one in [reconnectTimer]. *)
Definition cron_invariant (now : Z) (s : MqttServiceCron.State) : Prop :=
  MqttServiceCron.lastMessageTime (MqttServiceCron.fields s) = now
  ∧ 5000 ≤ MqttServiceCron.reconnectDelay (MqttServiceCron.fields s) ≤ 900000
  ∧ ∀ h, is_Some (MqttServiceCron.timers s !! h) →
         MqttServiceCron.reconnectTimer (MqttServiceCron.fields s) = Some h.

(** Two states of the earlier service with the same last-message time,
    delay, timer field and armed timers. *)
Definition same_core (s s' : MqttServiceCron.State) : Prop :=
  MqttServiceCron.lastMessageTime (MqttServiceCron.fields s')
  = MqttServiceCron.lastMessageTime (MqttServiceCron.fields s)
  ∧ MqttServiceCron.reconnectDelay (MqttServiceCron.fields s')
    = MqttServiceCron.reconnectDelay (MqttServiceCron.fields s)
  ∧ MqttServiceCron.reconnectTimer (MqttServiceCron.fields s')
    = MqttServiceCron.reconnectTimer (MqttServiceCron.fields s)
  ∧ MqttServiceCron.timers s' = MqttServiceCron.timers s.

(** The value is not NaN. *)
Definition not_NaN (v : JsValue) : Prop := v ≠ VNum NaN.

(** Stores in which the normalized record of every quote exists and every
    call resolves. *)
Definition full_stores : Stores :=
  {| main_exists := λ _, Some true;
     dnse_updateOne := λ _, true;
     main_updateOne := λ _, true |}.

(** A quote with one more property than the sample quote, which the field
    table does not name. *)
Definition quote_FPT_tagged : gmap string Js.JsValue :=
  <["receivedAt" := Sample.text "10:15"]> Sample.quote_FPT.

(** A call of [connect()] inside trading hours that gets credentials but
    finds no broker address configured. *)
Definition call_without_url : MqttConnectionManager.Call :=
  {| MqttConnectionManager.trading := true;
     MqttConnectionManager.attempt :=
       {| MqttConnectionManager.auth := Some ("token", "investor");
          MqttConnectionManager.BROKER_URL := None;
          MqttConnectionManager.TOPIC := Some "quotes";
          MqttConnectionManager.CLIENT_ID := Some "svc";
          MqttConnectionManager.suffix := "a1b2c";
          MqttConnectionManager.opens := MqttConnectionManager.Opened |};
     MqttConnectionManager.trading_later := true;
     MqttConnectionManager.random := 1 # 2 |}.

(** The connection manager holding an open session while a second call of
    [connect()] waits for its credentials. *)
Definition reconnecting : MqttConnectionManager.System :=
  default MqttConnectionManager.start
    (MqttConnectionManager.run
       [MqttConnectionManager.CallConnect true;
        MqttConnectionManager.Continue
          (MqttConnectionManager.ResumeToken Inputs.good_attempt);
        MqttConnectionManager.CallConnect true]
       MqttConnectionManager.start).

(** What one attempt of the earlier service finds when all is well. *)
Definition cron_found : MqttServiceCron.Found :=
  {| MqttServiceCron.auth := Some ("token", "investor");
     MqttServiceCron.BROKEN_URL := Some "wss://broker";
     MqttServiceCron.TOPIC := Some "quotes";
     MqttServiceCron.CLIENT_ID := Some "svc";
     MqttServiceCron.suffix := "a1b2c";
     MqttServiceCron.opens := MqttConnectionManager.Opened |}.

(** The earlier service is started inside trading hours, connects, receives
    a quote and then loses its session. *)
Definition cron_events : list MqttServiceCron.Event :=
  [MqttServiceCron.ModuleInit true;
   MqttServiceCron.Continue (MqttServiceCron.ResumeToken cron_found);
   MqttServiceCron.MessageArrives Sample.quote_FPT;
   MqttServiceCron.TransportDown (1 # 2)].

(** The state those events lead to, for a service constructed at time 0. *)
Definition cron_dropped : MqttServiceCron.System :=
  default (MqttServiceCron.start 0)
          (MqttServiceCron.run cron_events (MqttServiceCron.start 0)).

End Further.

(** ** Properties of the connection manager *)

Module ConnectionProperties.
Import MqttConnectionManager Backoff.

(** A whole call of [connect()] always returns: three resumptions are
    enough on every path. *)
Lemma connect_returns c w : (connect_run c w).2 = None.
Proof.
  unfold connect_run, connect_enter.
  destruct (trading c); simpl; [|done].
  destruct (isConnecting (manager w)); simpl; [done|].
  destruct (auth (attempt c)) as [[token investorId]|]; simpl.
  - destruct (BROKER_URL (attempt c)) as [url|]; simpl; [|done].
    case_bool_decide; simpl; [done|].
    destruct (opens (attempt c)); simpl; [| |done];
      by destruct (scheduleReconnect _ _ _).
  - by destruct (scheduleReconnect _ _ _).
Qed.

Lemma scheduleReconnect_delay t r w :
  reconnectDelay (manager (scheduleReconnect t r w).1) =
  if t then Z.min (reconnectDelay (manager w) * 2) reconnectMax
  else reconnectDelay (manager w).
Proof.
  unfold scheduleReconnect. destruct t; simpl; [|done].
  by destruct (clear_reconnectTimer w).
Qed.

Lemma scheduleReconnect_isConnecting t r w :
  isConnecting (manager (scheduleReconnect t r w).1) = isConnecting (manager w).
Proof.
  unfold scheduleReconnect. destruct t; simpl; [|done].
  by destruct (clear_reconnectTimer w).
Qed.

(** A whole call started with the guard down ends as its verdict says. *)
Lemma connect_delay c w :
  isConnecting (manager w) = false →
  reconnectDelay (manager (connect c w).1) =
    match verdict c with
    | Connected => 5000
    | FailedScheduled => Z.min (reconnectDelay (manager w) * 2) reconnectMax
    | _ => reconnectDelay (manager w)
    end
  ∧ isConnecting (manager (connect c w).1) = false.
Proof.
  intros Hguard. unfold connect, connect_run, connect_enter, verdict, failed.
  destruct (trading c); simpl; [|done].
  rewrite Hguard. simpl.
  destruct (auth (attempt c)) as [[token investorId]|]; simpl.
  - destruct (BROKER_URL (attempt c)) as [url|]; simpl; [|done].
    case_bool_decide; simpl; [done|].
    destruct (opens (attempt c)); simpl; [| |done].
    + destruct (scheduleReconnect _ _ _) as [w' es] eqn:Hs. simpl.
      pose proof (scheduleReconnect_delay (trading_later c) (random c)
                    (set_isConnecting true w)) as Hd.
      rewrite Hs in Hd. simpl in Hd. rewrite Hd.
      by destruct (trading_later c).
    + destruct (scheduleReconnect _ _ _) as [w' es] eqn:Hs. simpl.
      pose proof (scheduleReconnect_delay (trading_later c) (random c)
                    {| manager := {| client := Some (fresh w); isConnecting := true;
                                     reconnectTimer := reconnectTimer (manager w);
                                     reconnectDelay := reconnectDelay (manager w) |};
                       timers := timers w; sessions := {[fresh w]} ∪ sessions w;
                       fresh := S (fresh w) |}) as Hd.
      rewrite Hs in Hd. simpl in Hd. rewrite Hd.
      by destruct (trading_later c).
  - destruct (scheduleReconnect _ _ _) as [w' es] eqn:Hs. simpl.
    pose proof (scheduleReconnect_delay (trading_later c) (random c)
                  (set_isConnecting true w)) as Hd.
    rewrite Hs in Hd. simpl in Hd. rewrite Hd.
    by destruct (trading_later c).
Qed.

Lemma attempts_snoc cs c w :
  attempts (cs ++ [c]) w = (connect c (attempts cs w)).1.
Proof. unfold attempts. by rewrite foldl_app. Qed.

Lemma attempts_guard_down cs :
  isConnecting (manager (attempts cs initial)) = false.
Proof.
  induction cs as [|c cs IH] using rev_ind; [done|].
  rewrite attempts_snoc. by apply connect_delay.
Qed.

Lemma streak_snoc cs c :
  streak (cs ++ [c]) =
    match verdict c with
    | Connected => O
    | FailedScheduled => S (streak cs)
    | _ => streak cs
    end.
Proof. unfold streak. by rewrite foldl_app. Qed.

Lemma backoff_succ k : backoff (S k) = Z.min (backoff k * 2) reconnectMax.
Proof.
  unfold backoff, reconnectMax.
  rewrite Nat2Z.inj_succ, Z.pow_succ_r by lia.
  pose proof (Z.pow_pos_nonneg 2 (Z.of_nat k)). lia.
Qed.

Lemma backoff_range k : 5000 ≤ backoff k ≤ reconnectMax.
Proof.
  unfold backoff, reconnectMax.
  pose proof (Z.pow_pos_nonneg 2 (Z.of_nat k)). lia.
Qed.

Lemma delay_after_snoc cs c :
  delay_after (cs ++ [c]) =
    match verdict c with
    | Connected => 5000
    | FailedScheduled => Z.min (delay_after cs * 2) reconnectMax
    | _ => delay_after cs
    end.
Proof.
  unfold delay_after. rewrite attempts_snoc.
  apply connect_delay, attempts_guard_down.
Qed.

Lemma delay_after_backoff cs : delay_after cs = backoff (streak cs).
Proof.
  induction cs as [|c cs IH] using rev_ind; [done|].
  rewrite delay_after_snoc, streak_snoc, IH.
  destruct (verdict c); try done. by rewrite backoff_succ.
Qed.

(** C3. The reconnect delay starts at 5000 ms; over any sequence of calls of
    [connect()], a successful connect sets it back to 5000 ms, a failed
    attempt whose reconnect is scheduled doubles it up to the cap of 15
    minutes, and every other call leaves it alone; so after [k] such
    failures in a row since the last success it is [min (5000 * 2^k) 900000]. *)
Theorem reconnect_delay_doubles_capped_resets :
  delay_after [] = 5000
  ∧ reconnectMax = 900000
  ∧ (∀ cs c, delay_after (cs ++ [c]) =
       match verdict c with
       | Connected => 5000
       | FailedScheduled => Z.min (delay_after cs * 2) reconnectMax
       | _ => delay_after cs
       end)
  ∧ (∀ cs, delay_after cs = Z.min (5000 * 2 ^ Z.of_nat (streak cs)) reconnectMax)
  ∧ (∀ cs, 5000 ≤ delay_after cs ≤ reconnectMax).
Proof.
  split_and!; try done.
  - apply delay_after_snoc.
  - apply delay_after_backoff.
  - intros cs. rewrite delay_after_backoff. apply backoff_range.
Qed.

(** *** The guard against concurrent calls *)

Lemma connecting_reachable : reachable connecting.
Proof.
  eapply reachable_step with (e := CallConnect true) (s := start);
    [apply reachable_start | reflexivity].
Qed.

(** C4. A call of [connect()] made inside trading hours while an earlier
    call is still in progress only logs: it opens no session, leaves the
    client handle, the reconnect timer, the delay and the guard as they
    were, and does not even suspend. *)
Theorem connect_while_connecting_is_noop (s : System) (c : Call) :
  isConnecting (manager (world s)) = true →
  trading c = true →
  connect_enter true (world s)
    = (world s, [Log "Connect already in progress, skipping duplicate call"], None)
  ∧ connect c (world s)
    = (world s, [Log "Connect already in progress, skipping duplicate call"])
  ∧ step (CallConnect true) s
    = Some (s, [Log "Connect already in progress, skipping duplicate call"]).
Proof.
  intros Hguard Htrading.
  unfold step, enter, connect, connect_run, connect_enter. rewrite Htrading, Hguard. simpl.
  by destruct s.
Qed.

Lemma connect_while_connecting_is_noop_witness :
  reachable connecting
  ∧ connect_enter true (world connecting)
    = (world connecting, [Log "Connect already in progress, skipping duplicate call"], None).
Proof.
  split; [apply connecting_reachable|].
  refine (proj1 (connect_while_connecting_is_noop connecting
    {| trading := true;
       attempt := {| auth := None; BROKER_URL := None; TOPIC := None;
                     CLIENT_ID := None; suffix := ""; opens := ConnectThrows |};
       trading_later := true; random := 0 |} _ _)); reflexivity.
Defined.

(** *** Outside the trading window *)

Lemma perform_snoc ops o w :
  perform (ops ++ [o]) w =
  let '(w', es') := perform1 o (perform ops w).1 in (w', (perform ops w).2 ++ es').
Proof. unfold perform. rewrite foldl_app. simpl. by destruct (foldl _ _ ops). Qed.

Lemma perform1_outside o w :
  op_trading o = false →
  (perform1 o w).1 = w ∧ Forall (λ e, quiet e = true) (perform1 o w).2.
Proof.
  destruct o as [c|t r]; intros Ho; cbn [op_trading] in Ho; unfold perform1.
  - unfold connect, connect_run, connect_enter. rewrite Ho. simpl.
    split; [done|]. by repeat constructor.
  - subst t. simpl. split; [done|]. constructor.
Qed.

Lemma perform_outside ops w :
  Forall (λ o, op_trading o = false) ops →
  (perform ops w).1 = w ∧ Forall (λ e, quiet e = true) (perform ops w).2.
Proof.
  induction ops as [|o ops IH] using rev_ind; intros Hout.
  - split; [done|constructor].
  - apply Forall_app in Hout as [Hops Ho%Forall_inv].
    destruct (IH Hops) as [Hw Hq]. rewrite perform_snoc, Hw.
    destruct (perform1_outside o w Ho) as [Hw' Hq'].
    destruct (perform1 o w) as [w' es']. simpl in *.
    split; [done|]. by apply Forall_app.
Qed.

Lemma enter_outside w ws :
  enter false w ws
  = ({| world := w; waiting := AtSkipAlert :: ws |}, [Alert "MQTT Connect Skipped"]).
Proof. done. Qed.

(** At a moment outside the trading window no callback arms a timer, and
    the only callback that opens a session is a [connect()] that resumes
    from its credential request. *)
Ltac none_of_them :=
  let Hex := fresh "Hex" in
  intros Hex;
  repeat (apply Exists_cons in Hex as [Hex|Hex]; [done|]);
  by apply Exists_nil in Hex.

Lemma step_outside m s s' es :
  window m = false → faithful m = true →
  step (happening m) s = Some (s', es) →
  Forall (λ e, arms_timer e = false) es
  ∧ (Exists (λ e, opens_session e = true) es →
     ∃ a, happening m = Continue (ResumeToken a)).
Proof.
  destruct m as [open e]. simpl. intros -> Hfaithful Hstep.
  unfold faithful in Hfaithful. simpl in Hfaithful.
  destruct e as [t|r|h t|t q|]; simpl in Hfaithful, Hstep.
  - apply bool_decide_eq_true in Hfaithful as ->.
    rewrite enter_outside in Hstep. injection Hstep as _ <-.
    split; [by repeat constructor|none_of_them].
  - destruct (remove_first (point r) (waiting s)) as [ws|]; [|done].
    simpl in Hstep. destruct r as [|a| |t q]; simpl in Hstep, Hfaithful.
    + injection Hstep as _ <-. split; [constructor|none_of_them].
    + split; [|by eauto].
      destruct (auth a) as [[token investorId]|];
        [destruct (BROKER_URL a) as [url|];
         [case_bool_decide; [|destruct (opens a)]|]|];
        injection Hstep as _ <-; by repeat constructor.
    + injection Hstep as _ <-. split; [constructor|none_of_them].
    + apply bool_decide_eq_true in Hfaithful as ->. simpl in Hstep.
      injection Hstep as _ <-. split; [constructor|none_of_them].
  - apply bool_decide_eq_true in Hfaithful as ->.
    destruct (timers (world s) !! h); [|done]. simpl in Hstep.
    rewrite enter_outside in Hstep. injection Hstep as _ <-.
    split; [by repeat constructor|none_of_them].
  - apply bool_decide_eq_true in Hfaithful as ->. simpl in Hstep.
    injection Hstep as _ <-. split; [constructor|none_of_them].
  - unfold end_, clear_reconnectTimer in Hstep.
    destruct (reconnectTimer (manager (world s))), (client (manager (world s)));
      simpl in Hstep; injection Hstep as _ <-;
      (split; [by repeat constructor|none_of_them]).
Qed.

Lemma timeline_snoc ms m s :
  timeline (ms ++ [m]) s =
  '(s1, trace) ← timeline ms s;
  if faithful m then
    '(s', es) ← step (happening m) s1;
    Some (s', trace ++ ((λ e, (window m, e)) <$> es))
  else None.
Proof. unfold timeline. by rewrite foldl_app. Qed.

Lemma timeline_no_timer_outside ms s s' trace e :
  timeline ms s = Some (s', trace) → (false, e) ∈ trace → arms_timer e = false.
Proof.
  revert s' trace. induction ms as [|m ms IH] using rev_ind; intros s' trace Hrun Hin.
  - injection Hrun as _ <-. by apply elem_of_nil in Hin.
  - rewrite timeline_snoc in Hrun.
    destruct (timeline ms s) as [[s1 trace1]|]; [|done]. simpl in Hrun.
    destruct (faithful m) eqn:Hfaithful; [|done].
    destruct (step (happening m) s1) as [[s2 es]|] eqn:Hstep; [|done].
    simpl in Hrun. injection Hrun as _ <-.
    apply elem_of_app in Hin as [Hin|Hin]; [by eapply IH|].
    apply list_elem_of_fmap in Hin as (e' & [= Hwindow ->] & Hin).
    destruct (step_outside m s1 s2 es (eq_sym Hwindow) Hfaithful Hstep) as [Hnone _].
    rewrite Forall_forall in Hnone. by apply Hnone.
Qed.

(** C5 (amended). Calls of [connect()] and [scheduleReconnect()] made while
    [isTradingTime()] answers false leave the manager, the armed timers and
    the open sessions as they were, and none of their effects opens a
    session or arms a timer: such a [connect()] only sends the "skipped"
    alert and such a [scheduleReconnect()] does nothing.  Hence, over any
    run of callbacks, no timer is armed at a moment outside the trading
    window, and a session is opened at such a moment only by a [connect()]
    that passed the check earlier and resumes from its credential request. *)
Theorem outside_trading_window_nothing_happens :
  (∀ ops w, Forall (λ o, op_trading o = false) ops →
     (perform ops w).1 = w
     ∧ Forall (λ e, opens_session e = false ∧ arms_timer e = false) (perform ops w).2)
  ∧ (∀ c w, trading c = false → connect c w = (w, [Alert "MQTT Connect Skipped"]))
  ∧ (∀ random w, scheduleReconnect false random w = (w, []))
  ∧ (∀ ms s s' trace e,
     timeline ms s = Some (s', trace) → (false, e) ∈ trace → arms_timer e = false)
  ∧ (∀ m s s' es,
     window m = false → faithful m = true → step (happening m) s = Some (s', es) →
     Exists (λ e, opens_session e = true) es →
     ∃ a, happening m = Continue (ResumeToken a)).
Proof.
  split_and!.
  - intros ops w Hout. destruct (perform_outside ops w Hout) as [Hw Hq].
    split; [done|]. eapply Forall_impl; [exact Hq|].
    intros e. unfold quiet. by destruct (opens_session e), (arms_timer e).
  - intros c w Hout. unfold connect, connect_run, connect_enter. by rewrite Hout.
  - done.
  - apply timeline_no_timer_outside.
  - intros m s s' es Hwindow Hfaithful Hstep.
    by apply (step_outside m s s' es).
Qed.

Lemma outside_trading_window_nothing_happens_witness :
  (perform [OpConnect {| trading := false;
                         attempt := {| auth := Some ("token", "investor");
                                       BROKER_URL := Some "wss://broker";
                                       TOPIC := Some "quotes"; CLIENT_ID := Some "svc";
                                       suffix := "a1b2c"; opens := Opened |};
                         trading_later := false; random := 1 # 2 |};
            OpScheduleReconnect false (1 # 2)] initial).1 = initial
  ∧ arms_timer (Alert "MQTT Connect Skipped") = false.
Proof.
  destruct outside_trading_window_nothing_happens as (Hcalls & _ & _ & Hrun & _).
  split.
  - refine (proj1 (Hcalls _ initial _)). repeat constructor.
  - refine (Hrun [{| window := false; happening := CallConnect false |}] start
              _ _ _ eq_refl _).
    apply list_elem_of_singleton. reflexivity.
Defined.

(** *** What holds in every reachable state *)

Lemma invariant_initial : invariant initial.
Proof.
  split; [unfold delay_in_range, reconnectMax; simpl; lia|].
  intros h [d Hd]. simpl in Hd. by rewrite lookup_empty in Hd.
Qed.

Lemma invariant_set_isConnecting b w : invariant w → invariant (set_isConnecting b w).
Proof. by intros [? ?]. Qed.

Lemma invariant_scheduleReconnect t r w :
  invariant w → invariant (scheduleReconnect t r w).1.
Proof.
  intros [Hrange Hown]. unfold scheduleReconnect, clear_reconnectTimer.
  destruct t; simpl; [|done].
  assert (∀ armed, (∀ h, is_Some (armed !! h) → False) →
    invariant
      {| manager := {| client := client (manager w);
                       isConnecting := isConnecting (manager w);
                       reconnectTimer := Some (fresh w);
                       reconnectDelay := Z.min (reconnectDelay (manager w) * 2)
                                               reconnectMax |};
         timers := <[fresh w := (inject_Z (reconnectDelay (manager w))
                                 + jitter r (reconnectDelay (manager w)))%Q]> armed;
         sessions := sessions w; fresh := S (fresh w) |}) as Hgoal.
  { intros armed Hempty. split.
    - unfold delay_in_range, reconnectMax in *. simpl. lia.
    - intros h. simpl. rewrite lookup_insert. case_decide; [by subst|].
      intros Hh. by destruct (Hempty h). }
  destruct (reconnectTimer (manager w)) as [old|] eqn:Hold; simpl; apply Hgoal.
  - intros h. rewrite lookup_delete. case_decide; [by intros [? ?]|].
    intros Hh. apply Hown in Hh. congruence.
  - intros h Hh. apply Hown in Hh. congruence.
Qed.

Lemma invariant_end w : invariant w → invariant (end_ w).1.
Proof.
  intros [Hrange Hown]. unfold end_, clear_reconnectTimer.
  destruct (reconnectTimer (manager w)) as [old|] eqn:Hold;
    destruct (client (manager w)); simpl;
    (split; [unfold delay_in_range, reconnectMax; simpl; lia|]);
    intros h; simpl; rewrite ?lookup_delete; try case_decide;
    try (by intros [? ?]); intros Hh; apply Hown in Hh; congruence.
Qed.

Lemma invariant_connect_enter t w :
  invariant w → invariant (connect_enter t w).1.1.
Proof.
  intros Hinv. unfold connect_enter.
  destruct t; simpl; [|done].
  destruct (isConnecting (manager w)); simpl; [done|].
  by apply (invariant_set_isConnecting true).
Qed.

Lemma invariant_connect_resume r w :
  invariant w → invariant (connect_resume r w).1.1.
Proof.
  intros Hinv. destruct r as [|a| |t q]; unfold connect_resume.
  - done.
  - destruct (auth a) as [[token investorId]|]; [|done].
    destruct (BROKER_URL a) as [url|]; [|done].
    case_bool_decide; [done|].
    destruct Hinv as [Hrange Hown].
    destruct (opens a); [done| |]; (split; [|exact Hown]).
    + exact Hrange.
    + unfold delay_in_range, reconnectMax. simpl. lia.
  - by apply (invariant_set_isConnecting false).
  - pose proof (invariant_scheduleReconnect t q w Hinv) as Hs.
    destruct (scheduleReconnect t q w) as [w' es].
    by apply (invariant_set_isConnecting false).
Qed.

Lemma invariant_timer_fired h w :
  invariant w →
  invariant {| manager := manager w; timers := delete h (timers w);
               sessions := sessions w; fresh := fresh w |}.
Proof.
  intros [Hrange Hown]. split; [done|].
  intros h'. simpl. rewrite lookup_delete. case_decide; [by intros [? ?]|].
  apply Hown.
Qed.

Lemma world_enter t w ws : world (enter t w ws).1 = (connect_enter t w).1.1.
Proof. unfold enter. by destruct (connect_enter t w) as [[? ?] ?]. Qed.

Lemma invariant_step e s s' es :
  invariant (world s) → step e s = Some (s', es) → invariant (world s').
Proof.
  intros Hinv Hstep. destruct e as [t|r|h t|t q|]; simpl in Hstep.
  - injection Hstep as Hs. apply (f_equal fst) in Hs. simpl in Hs.
    rewrite <- Hs, world_enter. by apply invariant_connect_enter.
  - destruct (remove_first (point r) (waiting s)) as [ws|]; [|done].
    simpl in Hstep.
    pose proof (invariant_connect_resume r (world s) Hinv) as Hr.
    destruct (connect_resume r (world s)) as [[w' es'] s''].
    injection Hstep as <- _. exact Hr.
  - destruct (timers (world s) !! h); [|done]. simpl in Hstep.
    injection Hstep as Hs. apply (f_equal fst) in Hs. simpl in Hs.
    rewrite <- Hs, world_enter.
    by apply invariant_connect_enter, invariant_timer_fired.
  - pose proof (invariant_scheduleReconnect t q (world s) Hinv) as Hr.
    destruct (scheduleReconnect t q (world s)) as [w' es'].
    injection Hstep as <- _. exact Hr.
  - pose proof (invariant_end (world s) Hinv) as Hr.
    destruct (end_ (world s)) as [w' es'].
    injection Hstep as <- _. exact Hr.
Qed.

Lemma reachable_invariant s : reachable s → invariant (world s).
Proof.
  induction 1 as [|e s s' es _ IH Hstep]; [apply invariant_initial|].
  by eapply invariant_step.
Qed.

(** *** Jitter *)

Lemma scaled_half_bounds (r d : Q) :
  (0 <= r)%Q → (r < 1)%Q → (0 < d)%Q →
  (0 <= r * (d / 2))%Q ∧ (r * (d / 2) < d / 2)%Q.
Proof.
  intros Hlo Hhi Hd.
  assert (0 < d / 2)%Q as Hh by (apply Qlt_shift_div_l; lra).
  generalize dependent (d / 2)%Q. intros h Hh.
  split.
  - apply Qmult_le_0_compat; lra.
  - rewrite <- (Qmult_1_l h) at 2. apply Qmult_lt_compat_r; lra.
Qed.

(** C6. In every reachable state and for every value [random] in [0,1) of
    [Math.random()], the jitter of [scheduleReconnect()] is [random] times
    half the current delay, lies in [0, currentDelay/2), and the timer is
    armed with the current delay plus that jitter. *)
Theorem jitter_within_half_delay (s : System) (random : Q) :
  reachable s →
  (0 <= random)%Q → (random < 1)%Q →
  let currentDelay := reconnectDelay (manager (world s)) in
  let armed := (scheduleReconnect true random (world s)).1 in
  jitter random currentDelay = (random * (inject_Z currentDelay / 2))%Q
  ∧ (0 <= jitter random currentDelay)%Q
  ∧ (jitter random currentDelay < inject_Z currentDelay / 2)%Q
  ∧ timers armed !! fresh (world s)
    = Some (inject_Z currentDelay + jitter random currentDelay)%Q
  ∧ reconnectTimer (manager armed) = Some (fresh (world s)).
Proof.
  intros Hreach Hlo Hhi currentDelay armed.
  destruct (reachable_invariant s Hreach) as [[Hmin _] _].
  assert (0 < inject_Z currentDelay)%Q as Hd.
  { change 0%Q with (inject_Z 0). rewrite <- Zlt_Qlt. subst currentDelay. lia. }
  destruct (scaled_half_bounds random (inject_Z currentDelay) Hlo Hhi Hd) as [Hj0 Hj1].
  unfold jitter. split_and!.
  - done.
  - exact Hj0.
  - exact Hj1.
  - subst armed. unfold scheduleReconnect. simpl.
    destruct (clear_reconnectTimer (world s)). simpl. by rewrite lookup_insert_eq.
  - subst armed. unfold scheduleReconnect. simpl.
    by destruct (clear_reconnectTimer (world s)).
Qed.

Lemma jitter_within_half_delay_witness :
  jitter (1 # 2) 5000 = ((1 # 2) * (inject_Z 5000 / 2))%Q
  ∧ (0 <= jitter (1 # 2) 5000)%Q
  ∧ (jitter (1 # 2) 5000 < inject_Z 5000 / 2)%Q.
Proof.
  destruct (jitter_within_half_delay start (1 # 2) reachable_start) as (H1 & H2 & H3 & _);
    [done | done | ].
  exact (conj H1 (conj H2 H3)).
Defined.

(** The earlier [MqttService] rounds the jitter down; it stays in the same
    range. *)
Lemma legacy_jitter_within_half_delay (random : Q) (delay : Z) :
  (0 <= random)%Q → (random < 1)%Q → 0 < delay →
  0 ≤ MqttService.jitter random delay
  ∧ (inject_Z (MqttService.jitter random delay) < inject_Z delay / 2)%Q.
Proof.
  intros Hlo Hhi Hd. unfold MqttService.jitter.
  assert (0 < inject_Z delay)%Q as Hd'.
  { change 0%Q with (inject_Z 0). by rewrite <- Zlt_Qlt. }
  destruct (scaled_half_bounds random (inject_Z delay) Hlo Hhi Hd') as [Hj0 Hj1].
  split.
  - change 0 with (Qfloor 0). by apply Qfloor_resp_le.
  - eapply Qle_lt_trans; [apply Qfloor_le|]. exact Hj1.
Qed.

(** *** end() *)

Lemma end_manager w :
  manager (end_ w).1 =
  {| client := None; isConnecting := isConnecting (manager w);
     reconnectTimer := reconnectTimer (manager w); reconnectDelay := 5000 |}.
Proof.
  unfold end_. destruct (clear_reconnectTimer w) as [armed cleared].
  by destruct (client (manager w)).
Qed.

Lemma end_timers w : timers (end_ w).1 = (clear_reconnectTimer w).1.
Proof.
  unfold end_. destruct (clear_reconnectTimer w) as [armed cleared].
  by destruct (client (manager w)).
Qed.

Lemma end_sessions w :
  sessions (end_ w).1 =
  match client (manager w) with
  | Some c => sessions w ∖ {[c]}
  | None => sessions w
  end.
Proof.
  unfold end_. destruct (clear_reconnectTimer w) as [armed cleared].
  by destruct (client (manager w)).
Qed.

Lemma end_fresh w : fresh (end_ w).1 = fresh w.
Proof.
  unfold end_. destruct (clear_reconnectTimer w) as [armed cleared].
  by destruct (client (manager w)).
Qed.

Lemma World_eq (w1 w2 : World) :
  manager w1 = manager w2 → timers w1 = timers w2 →
  sessions w1 = sessions w2 → fresh w1 = fresh w2 → w1 = w2.
Proof. destruct w1, w2. simpl. by intros -> -> -> ->. Qed.

Lemma clear_reconnectTimer_idem w :
  (clear_reconnectTimer (end_ w).1).1 = (clear_reconnectTimer w).1.
Proof.
  unfold clear_reconnectTimer at 1. rewrite end_manager, end_timers. simpl.
  unfold clear_reconnectTimer.
  destruct (reconnectTimer (manager w)) as [h|]; simpl; [|done].
  apply map_eq. intros h'. rewrite !lookup_delete. by case_decide.
Qed.

(** [end()] twice is [end()] once, from any state. *)
Lemma end_idempotent w : (end_ (end_ w).1).1 = (end_ w).1.
Proof.
  apply World_eq.
  - by rewrite !end_manager.
  - by rewrite !end_timers, clear_reconnectTimer_idem.
  - rewrite (end_sessions (end_ w).1), end_manager. done.
  - by rewrite !end_fresh.
Qed.

(** C10. From every reachable state [end()] leaves a null client handle, no
    armed timer and the delay at 5000 ms; and calling it again changes
    nothing more. *)
Theorem end_resets_and_is_idempotent (s : System) :
  reachable s →
  let ended := (end_ (world s)).1 in
  client (manager ended) = None
  ∧ timers ended = ∅
  ∧ reconnectDelay (manager ended) = 5000
  ∧ (end_ ended).1 = ended.
Proof.
  intros Hreach ended. subst ended.
  destruct (reachable_invariant s Hreach) as [_ Hown].
  rewrite end_manager, end_timers. split_and!; try done.
  - unfold clear_reconnectTimer.
    destruct (reconnectTimer (manager (world s))) as [old|] eqn:Hold; simpl;
      apply map_empty; intros h; rewrite ?lookup_delete; try case_decide; try done;
      destruct (timers (world s) !! h) eqn:Hh; try done;
      assert (is_Some (timers (world s) !! h)) as Hsome by (by rewrite Hh);
      apply Hown in Hsome; congruence.
  - apply end_idempotent.
Qed.

End ConnectionProperties.

(** ** Properties of the quote service *)

Module QuoteProperties.
Import Js QuoteService App.

Section generic.
Context {rt : Runtime}.
Variable fieldMap : list (string * option string).
Variable marketMap : gmap string JsValue.

Abbreviation mapQuote := (mapQuoteToInternalFormat fieldMap marketMap).
Abbreviation save := (saveQuoteIfChanged fieldMap marketMap).
Abbreviation saveChecked := (saveQuoteIfChangedChecked fieldMap marketMap).

(** Each key of the field table ends up holding what the loop body computes
    for its entry. *)
Lemma mapQuote_lookup quote mainKey dnseKey :
  distinct_keys fieldMap →
  (mainKey, dnseKey) ∈ fieldMap →
  mapQuote quote !! mainKey = Some (mapField marketMap quote mainKey dnseKey).
Proof.
  unfold mapQuoteToInternalFormat, distinct_keys.
  induction fieldMap as [|[k d] fm IH] using rev_ind; intros Hdistinct Hin.
  - by apply elem_of_nil in Hin.
  - rewrite foldl_app. simpl.
    rewrite fmap_app in Hdistinct. apply NoDup_app in Hdistinct as (Hfm & Hfresh & _).
    apply elem_of_app in Hin as [Hin|Hin].
    + assert (k ≠ mainKey) as Hne.
      { intros ->. apply (Hfresh mainKey).
        - by apply (list_elem_of_fmap_2 fst fm (mainKey, dnseKey)).
        - simpl. by apply list_elem_of_singleton. }
      rewrite lookup_insert_ne by done. by apply IH.
    + apply list_elem_of_singleton in Hin. injection Hin as -> ->.
      by rewrite lookup_insert_eq.
Qed.

Lemma isChanged_differs cache data :
  isChanged (cache_get cache (prop data "symbol")) data = true
  ↔ differs_from_cache cache data.
Proof.
  unfold differs_from_cache, isChanged, strict_neq, compared.
  destruct (cache_get cache (prop data "symbol")) as [cached|]; [|done].
  rewrite !orb_true_iff, !negb_true_iff. split.
  - intros [[[[Hk|Hk]|Hk]|Hk]|Hk]; eexists; (split; [|exact Hk]); set_solver.
  - intros (k & Hin & Hk).
    repeat (apply elem_of_cons in Hin as [->|Hin]; [tauto|]).
    by apply elem_of_nil in Hin.
Qed.

Lemma isChanged_equals cache data :
  isChanged (cache_get cache (prop data "symbol")) data = false
  ↔ equals_cache cache data.
Proof.
  unfold equals_cache, isChanged, strict_neq, compared.
  destruct (cache_get cache (prop data "symbol")) as [cached|].
  - rewrite !orb_false_iff, !negb_false_iff. split.
    + intros ((((H1 & H2) & H3) & H4) & H5). exists cached. split; [done|].
      intros k Hin.
      repeat (apply elem_of_cons in Hin as [->|Hin]; [done|]).
      by apply elem_of_nil in Hin.
    + intros (cached' & [= <-] & Hall).
      repeat split; apply Hall; set_solver.
  - split; [done|]. by intros (cached & ? & _).
Qed.

(** C1 (amended). When the symbol and the mapped StockCode are present and
    the quote differs from the cached snapshot (or none is cached),
    [saveQuoteIfChanged] issues the two upserts, the raw one keyed by the
    symbol and the normalized one keyed by StockCode; the revision that
    maintains the cache then, once both upserts have resolved, stores the
    quote as the snapshot of its symbol. *)
Theorem changed_quote_is_upserted (db : Stores)
    (cache : gmap JsValue (gmap string JsValue)) (data : gmap string JsValue) :
  let symbol := prop data "symbol" in
  let mainQuote := mapQuote data in
  let StockCode := mprop mainQuote "StockCode" in
  truthy symbol = true →
  truthyM StockCode = true →
  differs_from_cache cache data →
  issued (save db cache data) = both_upserts symbol data StockCode mainQuote
  ∧ issued (saveChecked db cache data) = both_upserts symbol data StockCode mainQuote
  ∧ (dnse_updateOne db symbol = true → main_updateOne db StockCode = true →
     completion (saveChecked db cache data) = Resolved
     ∧ cache_after (saveChecked db cache data) = cache_set cache symbol data
     ∧ cache_get (cache_after (saveChecked db cache data)) symbol = Some data).
Proof.
  intros symbol mainQuote StockCode Hsymbol Hcode Hdiff.
  apply isChanged_differs in Hdiff. subst symbol mainQuote StockCode.
  unfold saveQuoteIfChanged, saveQuoteIfChangedChecked. cbv zeta.
  rewrite Hsymbol, Hcode, Hdiff. simpl.
  split_and!.
  - by destruct (dnse_updateOne db _ && main_updateOne db _).
  - by destruct (dnse_updateOne db _ && main_updateOne db _).
  - intros -> ->. simpl. split_and!; try done.
    unfold cache_get, cache_set. by rewrite lookup_insert_eq.
Qed.

(** The revision with the existence check, on a quote that equals its cached
    snapshot: it asks the normalized store, returns without writing when the
    record is there, and issues both upserts when it is missing. *)
Lemma checked_unchanged_quote (db : Stores)
    (cache : gmap JsValue (gmap string JsValue)) (data : gmap string JsValue) :
  let symbol := prop data "symbol" in
  let mainQuote := mapQuote data in
  let StockCode := mprop mainQuote "StockCode" in
  truthy symbol = true →
  truthyM StockCode = true →
  equals_cache cache data →
  (main_exists db StockCode = Some true →
     saveChecked db cache data =
     {| completion := Resolved; issued := [MainExists StockCode]; cache_after := cache |})
  ∧ (main_exists db StockCode = Some false →
     issued (saveChecked db cache data) =
     MainExists StockCode :: both_upserts symbol data StockCode mainQuote).
Proof.
  intros symbol mainQuote StockCode Hsymbol Hcode Heq.
  apply isChanged_equals in Heq. subst symbol mainQuote StockCode.
  unfold saveQuoteIfChangedChecked. cbv zeta.
  rewrite Hsymbol, Hcode, Heq. simpl.
  split; intros ->; [done|].
  by destruct (dnse_updateOne db _ && main_updateOne db _).
Qed.

(** quote.service.ts on a quote that equals its cached snapshot: it returns
    at once, whatever the normalized store holds. *)
Lemma unchanged_quote_returns (db : Stores)
    (cache : gmap JsValue (gmap string JsValue)) (data : gmap string JsValue) :
  truthy (prop data "symbol") = true →
  equals_cache cache data →
  save db cache data =
  {| completion := Resolved; issued := []; cache_after := cache |}.
Proof.
  intros Hsymbol Heq. apply isChanged_equals in Heq.
  unfold saveQuoteIfChanged. by rewrite Hsymbol, Heq.
Qed.

(** What [saveQuoteIfChanged] of quote.service.ts leaves in the cache is
    what it found there. *)
Lemma save_keeps_cache db cache data : cache_after (save db cache data) = cache.
Proof. unfold saveQuoteIfChanged. by repeat (case_match; simpl). Qed.

(** So the only cache its calls ever produce is the empty one. *)
Lemma produced_save_empty cache : produced save cache → cache = ∅.
Proof.
  induction 1 as [|db cache data _ IH]; [done|]. by rewrite save_keeps_cache.
Qed.

(** C7. [saveQuoteIfChanged] throws "Symbol is required to save quote" when
    the symbol is absent, and the different error "StockCode missing in
    mainQuote mapping" when the mapped StockCode is absent; in each case no
    store call is issued, the cache is left as it was, and so is the
    connection manager.  For quote.service.ts the cache is any one its own
    calls have produced from the empty cache; the revision with the
    existence check validates before it consults the cache and throws on
    every cache. *)
Theorem validation_errors_write_nothing (db : Stores) (s : Service)
    (data : gmap string JsValue) :
  let cache := quoteCache s in
  let StockCode := mprop (mapQuote data) "StockCode" in
  let no_symbol :=
    {| completion := Rejected (Error "Symbol is required to save quote");
       issued := []; cache_after := cache |} in
  let no_code :=
    {| completion := Rejected (Error "StockCode missing in mainQuote mapping");
       issued := []; cache_after := cache |} in
  (truthy (prop data "symbol") = false →
     save db cache data = no_symbol ∧ saveChecked db cache data = no_symbol)
  ∧ (truthy (prop data "symbol") = true → truthyM StockCode = false →
     (produced save cache → save db cache data = no_code)
     ∧ saveChecked db cache data = no_code)
  ∧ completion no_symbol ≠ completion no_code
  ∧ connection (onMessage fieldMap marketMap db data s).1 = connection s.
Proof.
  intros cache StockCode no_symbol no_code. split_and!.
  - intros Hsymbol. unfold saveQuoteIfChanged, saveQuoteIfChangedChecked.
    by rewrite Hsymbol.
  - intros Hsymbol Hcode. subst StockCode.
    split.
    + intros Hempty%produced_save_empty. subst no_code. rewrite Hempty.
      unfold saveQuoteIfChanged. cbv zeta. rewrite Hsymbol, Hcode. simpl.
      assert (isChanged (cache_get ∅ (prop data "symbol")) data = true) as ->; [|done].
      apply isChanged_differs. unfold differs_from_cache, cache_get.
      by rewrite lookup_empty.
    + unfold saveQuoteIfChangedChecked. cbv zeta.
      by rewrite Hsymbol, Hcode.
  - done.
  - done.
Qed.

(** C8 (amended), first half: in [mapQuoteToInternalFormat] a field other
    than the trading date and the market identifier whose raw value is text
    that [Number] cannot read keeps that text. *)
Lemma mapQuote_keeps_text quote mainKey dnseKey s :
  distinct_keys fieldMap →
  (mainKey, Some dnseKey) ∈ fieldMap →
  dnseKey ≠ "" → mainKey ≠ "TradingDate" → mainKey ≠ "MarketID" →
  prop quote dnseKey = VStr s →
  isNaN (Number (VStr s)) = true →
  mprop (mapQuote quote) mainKey = MVal (VStr s).
Proof.
  intros Hdistinct Hin Hkey Hdate Hmarket Hvalue Hnan.
  unfold mprop. rewrite (mapQuote_lookup _ _ _ Hdistinct Hin). simpl.
  rewrite !bool_decide_eq_false_2 by done.
  rewrite Hvalue. simpl. simpl in Hnan. by rewrite Hnan.
Qed.

Lemma foldl_insert_lookup (f : string → JsValue) (ks : list string)
    (m : gmap string JsValue) (k : string) :
  foldl (λ cleaned k, <[k := f k]> cleaned) m ks !! k =
  if decide (k ∈ ks) then Some (f k) else m !! k.
Proof.
  induction ks as [|k' ks IH] using rev_ind.
  - simpl. destruct (decide (k ∈ [])) as [Hin|Hin]; [by apply elem_of_nil in Hin|done].
  - rewrite foldl_app. simpl. rewrite lookup_insert.
    destruct (decide (k' = k)) as [->|Hne].
    + rewrite decide_True; [done|]. apply elem_of_app. right.
      by apply list_elem_of_singleton.
    + rewrite IH. destruct (decide (k ∈ ks)) as [Hin|Hin].
      * rewrite decide_True; [done|]. apply elem_of_app. by left.
      * rewrite decide_False; [done|]. intros [?|Hk%list_elem_of_singleton]%elem_of_app;
          [done|by subst].
Qed.

(** [normalizeQuote] replaces each of the twelve properties by [toNumber] of
    its raw value and keeps every other property. *)
Lemma normalizeQuote_prop raw k :
  prop (MqttService.normalizeQuote raw) k =
  if decide (k ∈ MqttService.numericFields) then MqttService.toNumber (prop raw k)
  else prop raw k.
Proof.
  unfold prop at 1, MqttService.normalizeQuote.
  rewrite (foldl_insert_lookup (λ k, MqttService.toNumber (prop raw k))).
  by case_decide.
Qed.

(** C8 (amended). Text that [Number] cannot read is never turned into zero:
    [mapQuoteToInternalFormat] stores the text itself under the normalized
    field (for every field but the trading date and the market identifier);
    [normalizeQuote] of the earlier service sets each of its twelve numeric
    properties to [undefined], and a quote cleaned that way is then mapped
    to [null] in that field. *)
Theorem coercion_failure_never_zero (s : string) :
  isNaN (Number (VStr s)) = true →
  (∀ quote mainKey dnseKey,
     distinct_keys fieldMap → (mainKey, Some dnseKey) ∈ fieldMap →
     dnseKey ≠ "" → mainKey ≠ "TradingDate" → mainKey ≠ "MarketID" →
     prop quote dnseKey = VStr s →
     mprop (mapQuote quote) mainKey = MVal (VStr s)
     ∧ ¬ is_zero (mprop (mapQuote quote) mainKey))
  ∧ (∀ raw k,
     k ∈ MqttService.numericFields → prop raw k = VStr s →
     prop (MqttService.normalizeQuote raw) k = VUndefined)
  ∧ (∀ raw mainKey dnseKey,
     distinct_keys fieldMap → (mainKey, Some dnseKey) ∈ fieldMap →
     dnseKey ≠ "" → dnseKey ∈ MqttService.numericFields →
     prop raw dnseKey = VStr s →
     mprop (mapQuote (MqttService.normalizeQuote raw)) mainKey = MVal VNull).
Proof.
  intros Hnan.
  assert (∀ raw k, k ∈ MqttService.numericFields → prop raw k = VStr s →
            prop (MqttService.normalizeQuote raw) k = VUndefined) as Hclean.
  { intros raw k Hk Hvalue. rewrite normalizeQuote_prop.
    rewrite decide_True by done. rewrite Hvalue.
    unfold MqttService.toNumber. by rewrite Hnan. }
  split_and!.
  - intros quote mainKey dnseKey Hdistinct Hin Hkey Hdate Hmarket Hvalue.
    rewrite (mapQuote_keeps_text quote mainKey dnseKey s) by done.
    split; [done|]. by intros [=].
  - exact Hclean.
  - intros raw mainKey dnseKey Hdistinct Hin Hkey Hnumeric Hvalue.
    unfold mprop. rewrite (mapQuote_lookup _ _ _ Hdistinct Hin). simpl.
    rewrite bool_decide_eq_false_2 by done.
    by rewrite (Hclean raw dnseKey Hnumeric Hvalue).
Qed.

(** *** The trading date *)

(** Putting the hour forward by seven and keeping day, minute, second and
    millisecond moves a local time by seven hours. *)
Lemma hours_plus_seven (t : Z) :
  MakeDate (Day t)
    (MakeTime (HourFromTime t + 7) (MinFromTime t) (SecFromTime t) (msFromTime t))
  = t + 7 * msPerHour.
Proof.
  unfold MakeDate, MakeTime, Day, HourFromTime, MinFromTime, SecFromTime, msFromTime,
    msPerDay, msPerHour, msPerMinute, msPerSecond.
  replace (t / 3600000) with (t / 1000 / 60 / 60) by (rewrite !Z.div_div by lia; done).
  replace (t / 86400000) with (t / 1000 / 60 / 60 / 24)
    by (rewrite !Z.div_div by lia; done).
  replace (t / 60000) with (t / 1000 / 60) by (rewrite !Z.div_div by lia; done).
  pose proof (Z.div_mod t 1000 ltac:(lia)).
  pose proof (Z.div_mod (t / 1000) 60 ltac:(lia)).
  pose proof (Z.div_mod (t / 1000 / 60) 60 ltac:(lia)).
  pose proof (Z.div_mod (t / 1000 / 60 / 60) 24 ltac:(lia)).
  lia.
Qed.

(** When the field table maps the trading date from a raw field whose value
    is present and denotes an instant [t], the local zone of the process has
    the same offset at [t] and at the local time seven hours later, and [t]
    plus seven hours is still a valid date, the normalized trading date is
    exactly seven hours after [t]. *)
Lemma trading_date_shift (quote : gmap string JsValue) (dnseKey : string) (t : Z) :
  distinct_keys fieldMap →
  ("TradingDate", Some dnseKey) ∈ fieldMap → dnseKey ≠ "" →
  is_nullish (prop quote dnseKey) = false →
  newDate (prop quote dnseKey) = Some t →
  LocalTZA (LocalTime t + 7 * msPerHour) false = LocalTZA t true →
  Z.abs (t + 7 * msPerHour) ≤ maxTime →
  mprop (mapQuote quote) "TradingDate" = MDate (Some (t + 7 * msPerHour)).
Proof.
  intros Hdistinct Hin Hkey Hpresent Hdate Hzone Hrange.
  unfold mprop. rewrite (mapQuote_lookup _ _ _ Hdistinct Hin). simpl.
  rewrite bool_decide_eq_false_2 by done. rewrite Hpresent, Hdate. simpl.
  rewrite hours_plus_seven. unfold UTC. rewrite Hzone.
  unfold LocalTime, TimeClip.
  replace (t + LocalTZA t true + 7 * msPerHour - LocalTZA t true)
    with (t + 7 * msPerHour) by lia.
  by rewrite (proj2 (Z.leb_le _ _) Hrange).
Qed.

End generic.

(** C9 (amended). For every raw quote whose trading-date field is present
    and denotes an instant [t], on a host whose local zone has the same
    offset at [t] and at the local time seven hours later, and with [t] plus
    seven hours still a valid date, [mapQuoteToInternalFormat] gives a
    trading date exactly seven hours after [t]; in particular, on a host
    with a fixed offset, 2024-01-01T00:00:00Z gives 2024-01-01T07:00:00Z. *)
Theorem trading_date_shifted_seven_hours :
  (∀ (rt : Runtime) fieldMap marketMap (quote : gmap string JsValue)
     (dnseKey : string) (t : Z),
     distinct_keys fieldMap →
     ("TradingDate", Some dnseKey) ∈ fieldMap → dnseKey ≠ "" →
     is_nullish (prop quote dnseKey) = false →
     newDate (prop quote dnseKey) = Some t →
     LocalTZA (LocalTime t + 7 * msPerHour) false = LocalTZA t true →
     Z.abs (t + 7 * msPerHour) ≤ maxTime →
     mprop (mapQuoteToInternalFormat fieldMap marketMap quote) "TradingDate"
     = MDate (Some (t + 7 * msPerHour)))
  ∧ (∀ (offset : Z) (quote : gmap string JsValue),
     prop quote "tradingDate" = VStr "2024-01-01T00:00:00Z" →
     mprop (@mapQuoteToInternalFormat (Host.runtime (λ _ _, offset))
              Sample.fieldMap Sample.marketMap quote) "TradingDate"
     = MDate (Host.date_parse "2024-01-01T07:00:00Z")).
Proof.
  split.
  - intros rt fieldMap marketMap. apply trading_date_shift.
  - intros offset quote Hdate.
    change (Host.date_parse "2024-01-01T07:00:00Z")
      with (Some (1704067200000 + 7 * msPerHour)).
    apply (trading_date_shift (rt := Host.runtime (λ _ _, offset))
             Sample.fieldMap Sample.marketMap quote "tradingDate").
    + apply (bool_decide_unpack _). by vm_compute.
    + apply (bool_decide_unpack _). by vm_compute.
    + done.
    + by rewrite Hdate.
    + by rewrite Hdate.
    + done.
    + by vm_compute.
Qed.

End QuoteProperties.

(** ** The statements on concrete inputs *)

Module Examples.
Import Js QuoteService App Sample Inputs MqttConnectionManager Backoff.
Import ConnectionProperties QuoteProperties.

Lemma run_reachable es s s' : reachable s → run es s = Some s' → reachable s'.
Proof.
  revert s'. induction es as [|e es IH] using rev_ind; intros s' Hs Hrun.
  - injection Hrun as <-. exact Hs.
  - unfold run in Hrun. rewrite foldl_app in Hrun. simpl in Hrun.
    fold (run es s) in Hrun.
    destruct (run es s) as [s1|] eqn:Hes; [|done]. simpl in Hrun.
    destruct (step e s1) as [[s2 es2]|] eqn:Hstep; [|done].
    injection Hrun as <-.
    eapply reachable_step; [by apply IH|exact Hstep].
Qed.

Lemma retrying_reachable : reachable retrying.
Proof.
  apply (run_reachable retry_events start); [apply reachable_start|].
  by vm_compute.
Qed.

Example backoff_of_three_failures :
  delay_after [failing_call; failing_call; failing_call] = 40000
  ∧ delay_after (replicate 8 failing_call) = 900000
  ∧ delay_after [failing_call; failing_call; good_call] = 5000.
Proof. by vm_compute. Qed.

(** Two calls of [connect()] in a row inside trading hours, then the
    credentials of the first arrive: one session is open, and the second
    call has left nothing suspended. *)
Example duplicate_connect_opens_one_session :
  run [CallConnect true; CallConnect true; Continue (ResumeToken good_attempt)] start
  = Some {| world := {| manager := {| client := Some 0%nat; isConnecting := false;
                                      reconnectTimer := None; reconnectDelay := 5000 |};
                        timers := ∅; sessions := {[0%nat]}; fresh := 1 |};
            waiting := [] |}.
Proof. by vm_compute. Qed.

(** A session that drops and is opened again: the drop schedules a
    reconnect and doubles the delay, and the next [connect()], which gets a
    client, puts it back to 5000 ms. *)
Example delay_after_drop_and_reconnect :
  (λ s, reconnectDelay (manager (world s))) <$>
    run [CallConnect true; Continue (ResumeToken good_attempt);
         TransportDown true (1 # 2)] start = Some 10000
  ∧ (λ s, reconnectDelay (manager (world s))) <$>
    run [CallConnect true; Continue (ResumeToken good_attempt);
         TransportDown true (1 # 2);
         TimerFires 1 true; Continue (ResumeToken good_attempt)] start = Some 5000.
Proof. by vm_compute. Qed.

Example retrying_state :
  manager (world retrying) =
    {| client := Some 0%nat; isConnecting := false;
       reconnectTimer := Some 1%nat; reconnectDelay := 10000 |}
  ∧ timers (world retrying) !! 1%nat = Some (5000 + (1 # 2) * (5000 / 2))%Q.
Proof. by vm_compute. Qed.

Lemma end_resets_and_is_idempotent_witness :
  timers (world retrying) ≠ ∅
  ∧ timers (end_ (world retrying)).1 = ∅
  ∧ reconnectDelay (manager (end_ (world retrying)).1) = 5000.
Proof.
  destruct (end_resets_and_is_idempotent retrying retrying_reachable)
    as (_ & Htimers & Hdelay & _).
  split; [|done]. intros Hempty.
  assert (timers (world retrying) !! 1%nat = None) as Hnone by (by rewrite Hempty).
  by vm_compute in Hnone.
Defined.

(** C5, as stated, fails: a [connect()] that passed the trading-hours check
    and was waiting for its credentials opens the session when they arrive,
    although the trading window has closed in the meantime. *)
Lemma session_opened_after_window_closed :
  snd <$> timeline straddling start =
    Some [(true, GetToken);
          (false, OpenSession 0 "wss://broker" "svc-a1b2c" "investor" "token");
          (false, RegisterEvents 0 "quotes");
          (false, Log "MQTT connected")]
  ∧ (sessions ∘ world ∘ fst) <$> timeline straddling start = Some {[0%nat]}.
Proof. by vm_compute. Qed.

(** *** Quotes *)

Example sample_quote_mapped :
  mprop (mapQuote_utc quote_FPT) "StockCode" = MVal (text "FPT")
  ∧ mprop (mapQuote_utc quote_FPT) "MatchPrice" = MVal (int 100)
  ∧ mprop (mapQuote_utc quote_FPT) "MarketID" = MVal (text "HOSE")
  ∧ mprop (mapQuote_utc quote_FPT) "ChangedRatio" = MVal VNull
  ∧ mprop (mapQuote_utc quote_FPT) "Remarks" = MVal VNull.
Proof. by vm_compute. Qed.

Lemma sample_keys_distinct : distinct_keys fieldMap.
Proof. apply (bool_decide_unpack _). by vm_compute. Qed.

(** C1, as stated, fails.  In quote.service.ts a new quote is written to
    both stores and the cache is left empty; a quote whose symbol is the
    text "0" is present and new, yet nothing is written because its mapped
    StockCode is the number zero; and in the revision that maintains the
    cache a rejected upsert leaves the cache as it was. *)
Lemma changed_quote_counterexample :
  (truthy (prop quote_FPT "symbol") = true
   ∧ differs_from_cache ∅ quote_FPT
   ∧ is_upsert <$> issued (save_utc empty_stores ∅ quote_FPT) = [true; true]
   ∧ cache_get (cache_after (save_utc empty_stores ∅ quote_FPT)) (text "FPT") = None)
  ∧ (truthy (prop quote_zero "symbol") = true
     ∧ differs_from_cache ∅ quote_zero
     ∧ save_utc empty_stores ∅ quote_zero =
       {| completion := Rejected (Error "StockCode missing in mainQuote mapping");
          issued := []; cache_after := ∅ |})
  ∧ (is_upsert <$> issued (saveChecked_utc main_store_down ∅ quote_FPT) = [true; true]
     ∧ completion (saveChecked_utc main_store_down ∅ quote_FPT) = Rejected StoreFailure
     ∧ cache_get (cache_after (saveChecked_utc main_store_down ∅ quote_FPT)) (text "FPT")
       = None).
Proof. by vm_compute. Qed.

Lemma changed_quote_is_upserted_witness :
  issued (save_utc empty_stores ∅ quote_FPT) =
    both_upserts (text "FPT") quote_FPT (MVal (text "FPT")) (mapQuote_utc quote_FPT)
  ∧ cache_get (cache_after (saveChecked_utc empty_stores ∅ quote_FPT)) (text "FPT")
    = Some quote_FPT.
Proof.
  destruct (changed_quote_is_upserted (rt := host) fieldMap marketMap
              empty_stores ∅ quote_FPT) as (Hissued & _ & Hcache);
    [by vm_compute | by vm_compute | by vm_compute |].
  split; [exact Hissued|]. by apply Hcache.
Defined.


Lemma validation_errors_write_nothing_witness :
  save_utc empty_stores ∅ ∅ =
    {| completion := Rejected (Error "Symbol is required to save quote");
       issued := []; cache_after := ∅ |}
  ∧ save_utc empty_stores (cache_after (save_utc empty_stores ∅ quote_FPT)) quote_zero =
    {| completion := Rejected (Error "StockCode missing in mainQuote mapping");
       issued := []; cache_after := cache_after (save_utc empty_stores ∅ quote_FPT) |}
  ∧ saveChecked_utc empty_stores cache_FPT quote_zero =
    {| completion := Rejected (Error "StockCode missing in mainQuote mapping");
       issued := []; cache_after := cache_FPT |}.
Proof.
  split_and!.
  - apply (validation_errors_write_nothing (rt := host) fieldMap marketMap empty_stores
             {| connection := initial; quoteCache := ∅ |} ∅).
    by vm_compute.
  - destruct (validation_errors_write_nothing (rt := host) fieldMap marketMap
                empty_stores
                {| connection := initial;
                   quoteCache := cache_after (save_utc empty_stores ∅ quote_FPT) |}
                quote_zero) as (_ & Hcode & _).
    destruct Hcode as [Hthrown _]; [by vm_compute | by vm_compute |].
    apply Hthrown. apply produced_call, produced_empty.
  - apply (validation_errors_write_nothing (rt := host) fieldMap marketMap empty_stores
             {| connection := initial; quoteCache := cache_FPT |} quote_zero);
      by vm_compute.
Defined.

(** C8, as stated, fails: a price that arrives as the text "abc" is stored
    as that text by [mapQuoteToInternalFormat], not as an absent value. *)
Lemma coercion_counterexample :
  prop quote_text_price "matchPrice" = VStr "abc"
  ∧ isNaN (@Number host (VStr "abc")) = true
  ∧ mprop (mapQuote_utc quote_text_price) "MatchPrice" = MVal (VStr "abc")
  ∧ ¬ absent (mprop (mapQuote_utc quote_text_price) "MatchPrice").
Proof.
  split_and!; try by vm_compute.
  assert (mprop (mapQuote_utc quote_text_price) "MatchPrice" = MVal (VStr "abc")) as ->
    by (by vm_compute).
  by intros [[=]|[=]].
Qed.

Lemma coercion_failure_never_zero_witness :
  mprop (mapQuote_utc quote_text_price) "MatchPrice" = MVal (VStr "abc")
  ∧ prop (@MqttService.normalizeQuote host quote_text_price) "matchPrice" = VUndefined
  ∧ mprop (mapQuote_utc (@MqttService.normalizeQuote host quote_text_price)) "MatchPrice"
    = MVal VNull.
Proof.
  destruct (coercion_failure_never_zero (rt := host) fieldMap marketMap "abc")
    as (Hmap & Hnormalize & Hboth); [by vm_compute|].
  split_and!.
  - apply (Hmap quote_text_price "MatchPrice" "matchPrice"); try done.
    + apply sample_keys_distinct.
    + apply (bool_decide_unpack _). by vm_compute.
  - apply Hnormalize; [|done].
    apply (bool_decide_unpack _). by vm_compute.
  - apply (Hboth quote_text_price "MatchPrice" "matchPrice"); try done.
    + apply sample_keys_distinct.
    + apply (bool_decide_unpack _). by vm_compute.
    + apply (bool_decide_unpack _). by vm_compute.
Defined.

(** C9, as stated, fails: a trading date that is present but cannot be
    parsed gives an invalid date; and on a host in New York the quote dated
    2024-03-10T05:00:00Z, local midnight of the night the clocks go forward,
    gets the date 2024-03-10T11:00:00Z, six hours later. *)
Lemma trading_date_counterexample :
  (is_nullish (prop quote_bad_date "tradingDate") = false
   ∧ mprop (mapQuote_utc quote_bad_date) "TradingDate" = MDate None)
  ∧ (@newDate host_new_york (prop quote_dst "tradingDate")
       = Host.date_parse "2024-03-10T05:00:00Z"
     ∧ mprop (mapQuote_new_york quote_dst) "TradingDate"
       = MDate (Host.date_parse "2024-03-10T11:00:00Z")
     ∧ Host.date_parse "2024-03-10T11:00:00Z"
       = (λ t, t + 6 * msPerHour) <$> Host.date_parse "2024-03-10T05:00:00Z").
Proof. by vm_compute. Qed.

Lemma trading_date_shifted_seven_hours_witness :
  @newDate host (prop quote_FPT "tradingDate") = Host.date_parse "2024-01-01T00:00:00Z"
  ∧ mprop (mapQuote_utc quote_FPT) "TradingDate"
    = MDate (Host.date_parse "2024-01-01T07:00:00Z")
  ∧ mprop (mapQuote_utc quote_dst) "TradingDate"
    = MDate (Host.date_parse "2024-03-10T12:00:00Z").
Proof.
  destruct trading_date_shifted_seven_hours as [Hshift Hnew_year].
  split_and!.
  - by vm_compute.
  - apply (Hnew_year 0 quote_FPT). by vm_compute.
  - change (Host.date_parse "2024-03-10T12:00:00Z")
      with (Some (1710046800000 + 7 * msPerHour)).
    apply (Hshift host fieldMap marketMap quote_dst "tradingDate").
    + apply sample_keys_distinct.
    + apply (bool_decide_unpack _). by vm_compute.
    + done.
    + by vm_compute.
    + by vm_compute.
    + by vm_compute.
    + by vm_compute.
Defined.

End Examples.

(** ** Further properties of the quote service *)

Module QuoteFurther.
Import Js QuoteService App Further QuoteProperties.

Section generic.
Context {rt : Runtime}.
Variable fieldMap : list (string * option string).
Variable marketMap : gmap string JsValue.

Abbreviation mapQuote := (mapQuoteToInternalFormat fieldMap marketMap).
Abbreviation save := (saveQuoteIfChanged fieldMap marketMap).
Abbreviation saveChecked := (saveQuoteIfChangedChecked fieldMap marketMap).

Lemma mapQuote_dom quote : dom (mapQuote quote) = list_to_set fieldMap.*1.
Proof.
  unfold mapQuoteToInternalFormat.
  induction fieldMap as [|[k d] fm IH] using rev_ind;
    [simpl; by rewrite dom_empty_L|].
  rewrite foldl_app, fmap_app, list_to_set_app_L. simpl.
  rewrite dom_insert_L, IH, (right_id_L ∅ (∪)). apply (comm_L (∪)).
Qed.

(** Whatever a key of the record holds was computed by the loop body for
    some entry of the table with that key. *)
Lemma mapQuote_lookup_inv quote mainKey v :
  mapQuote quote !! mainKey = Some v →
  ∃ dnseKey, (mainKey, dnseKey) ∈ fieldMap
             ∧ v = mapField marketMap quote mainKey dnseKey.
Proof.
  unfold mapQuoteToInternalFormat.
  induction fieldMap as [|[k d] fm IH] using rev_ind;
    [simpl; by rewrite lookup_empty|].
  rewrite foldl_app. simpl. rewrite lookup_insert.
  case_decide as Hk.
  - intros [= <-]. subst k. exists d. split; [|done].
    apply elem_of_app. right. by apply list_elem_of_singleton.
  - intros (d' & Hin & Hv)%IH. exists d'. split; [|done].
    apply elem_of_app. by left.
Qed.

Lemma mapField_defined quote mainKey dnseKey :
  mapField marketMap quote mainKey dnseKey ≠ MVal VUndefined.
Proof.
  unfold mapField. destruct dnseKey as [k|]; [|done].
  case_bool_decide; [done|].
  destruct (is_nullish (prop quote k)) eqn:Hvalue; [done|].
  case_bool_decide; [done|]. case_bool_decide.
  - destruct (is_nullish (prop marketMap _)) eqn:Hfound;
      intros [= Heq]; by rewrite Heq in *.
  - destruct (isNaN (Number (prop quote k))); [|done].
    intros [= Heq]. by rewrite Heq in Hvalue.
Qed.

(** X1. The record that [mapQuoteToInternalFormat] builds has exactly the
    normalized fields of the table, whatever the raw quote holds, and none
    of them is [undefined]. *)
Theorem mapped_record_shape (quote : gmap string JsValue) :
  dom (mapQuote quote) = list_to_set fieldMap.*1
  ∧ ∀ mainKey v, mapQuote quote !! mainKey = Some v → v ≠ MVal VUndefined.
Proof.
  split; [apply mapQuote_dom|].
  intros mainKey v (d & _ & ->)%mapQuote_lookup_inv. apply mapField_defined.
Qed.

(** X2. A normalized field whose table entry has no source ([null] or the
    empty name), or whose source is missing or [null] in the raw quote, is
    [null], also when it is the trading date or the market identifier. *)
Theorem field_without_source_is_null (quote : gmap string JsValue)
    (mainKey : string) (dnseKey : option string) :
  distinct_keys fieldMap →
  (mainKey, dnseKey) ∈ fieldMap →
  (dnseKey = None ∨ dnseKey = Some ""
   ∨ ∃ k, dnseKey = Some k ∧ is_nullish (prop quote k) = true) →
  mprop (mapQuote quote) mainKey = MVal VNull.
Proof.
  intros Hdistinct Hin Hsource.
  unfold mprop. rewrite (mapQuote_lookup _ _ _ _ _ Hdistinct Hin). simpl.
  destruct Hsource as [->| [->|(k & -> & Hnull)]]; [done|done|].
  unfold mapField. rewrite Hnull. by case_bool_decide.
Qed.

(** X3. The market identifier is looked up in the market table: a code the
    table holds becomes its entry, any other code is kept as it came.  The
    source name and the code are not among the names every object inherits:
    for those the lookup finds the inherited property. *)
Theorem market_translated_or_kept (quote : gmap string JsValue) (k : string) :
  distinct_keys fieldMap →
  ("MarketID", Some k) ∈ fieldMap → k ≠ "" →
  k ∉ Object_prototype_names →
  is_nullish (prop quote k) = false →
  ToPropertyKey (prop quote k) ∉ Object_prototype_names →
  (∀ entry, marketMap !! ToPropertyKey (prop quote k) = Some entry →
            is_nullish entry = false →
            mprop (mapQuote quote) "MarketID" = MVal entry)
  ∧ (marketMap !! ToPropertyKey (prop quote k) = None →
     mprop (mapQuote quote) "MarketID" = MVal (prop quote k)).
Proof.
  intros Hdistinct Hin Hkey _ Hvalue _.
  unfold mprop. rewrite (mapQuote_lookup _ _ _ _ _ Hdistinct Hin). simpl.
  rewrite bool_decide_eq_false_2 by done. rewrite Hvalue. simpl.
  split.
  - intros entry Hentry Hdefined.
    replace (prop marketMap (ToPropertyKey (prop quote k))) with entry
      by (unfold prop at 1; by rewrite Hentry).
    by rewrite Hdefined.
  - intros Hnone.
    replace (prop marketMap (ToPropertyKey (prop quote k))) with VUndefined
      by (unfold prop at 1; by rewrite Hnone).
    done.
Qed.

(** X4. Every other field whose raw value [Number] can read is stored as
    that number: numeric text becomes a number, and [true] and [false]
    become 1 and 0. *)
Theorem readable_value_stored_as_number (quote : gmap string JsValue)
    (mainKey k : string) :
  distinct_keys fieldMap →
  (mainKey, Some k) ∈ fieldMap → k ≠ "" →
  mainKey ≠ "TradingDate" → mainKey ≠ "MarketID" →
  (is_nullish (prop quote k) = false → isNaN (Number (prop quote k)) = false →
   mprop (mapQuote quote) mainKey = MVal (VNum (Number (prop quote k))))
  ∧ (∀ b : bool, prop quote k = VBool b →
     mprop (mapQuote quote) mainKey = MVal (VNum (num_of_Z (if b then 1 else 0)))).
Proof.
  intros Hdistinct Hin Hkey Hdate Hmarket.
  unfold mprop. rewrite (mapQuote_lookup _ _ _ _ _ Hdistinct Hin). simpl.
  rewrite !bool_decide_eq_false_2 by done. split.
  - intros -> ->. done.
  - intros b ->. by destruct b.
Qed.

Lemma mapField_ext q1 q2 mainKey dnseKey :
  (∀ k, dnseKey = Some k → prop q1 k = prop q2 k) →
  mapField marketMap q1 mainKey dnseKey = mapField marketMap q2 mainKey dnseKey.
Proof.
  intros Hsame. destruct dnseKey as [k|]; [|done].
  unfold mapField. by rewrite (Hsame k eq_refl).
Qed.

(** X5. The record depends only on the raw fields the table names: two raw
    quotes that agree on those are mapped to the same record. *)
Theorem mapping_reads_only_table_fields (q1 q2 : gmap string JsValue) :
  (∀ mainKey k, (mainKey, Some k) ∈ fieldMap → prop q1 k = prop q2 k) →
  mapQuote q1 = mapQuote q2.
Proof.
  unfold mapQuoteToInternalFormat.
  induction fieldMap as [|[mainKey d] fm IH] using rev_ind; intros Hsame; [done|].
  rewrite !foldl_app. simpl. rewrite IH.
  - f_equal. apply mapField_ext. intros k ->. apply (Hsame mainKey).
    apply elem_of_app. right. by apply list_elem_of_singleton.
  - intros mainKey' k Hin. apply (Hsame mainKey'). apply elem_of_app. by left.
Qed.

(** X6. The two stores are written together or not at all: what a call
    issues is, after the existence query if one is made, either nothing or
    the raw upsert followed by the normalized one. *)
Theorem stores_written_together (db : Stores)
    (cache : gmap JsValue (gmap string JsValue)) (data : gmap string JsValue) :
  let symbol := prop data "symbol" in
  let mainQuote := mapQuote data in
  let StockCode := mprop mainQuote "StockCode" in
  let both := both_upserts symbol data StockCode mainQuote in
  (issued (save db cache data) = [] ∨ issued (save db cache data) = both)
  ∧ (∃ asked, (asked = [] ∨ asked = [MainExists StockCode])
              ∧ (issued (saveChecked db cache data) = asked
                 ∨ issued (saveChecked db cache data) = asked ++ both)).
Proof.
  intros symbol mainQuote StockCode both.
  subst both symbol mainQuote StockCode.
  unfold saveQuoteIfChanged, saveQuoteIfChangedChecked. cbv zeta. split.
  - repeat (case_match; simpl; eauto).
  - destruct (truthy _); simpl; [|by exists []; eauto].
    destruct (truthyM _); simpl; [|by exists []; eauto].
    destruct (isChanged _ _); simpl.
    + exists []. split; [by left|]. right.
      by destruct (dnse_updateOne db _ && main_updateOne db _).
    + eexists. split; [by right|].
      destruct (main_exists db _) as [[]|]; simpl; eauto.
      right. by destruct (dnse_updateOne db _ && main_updateOne db _).
Qed.

(** X7. [saveQuoteIfChanged] of quote.service.ts never writes the snapshot
    cache: over any sequence of messages the cache stays what it was, so
    every message is judged against the same snapshots as the first. *)
Theorem quote_service_never_writes_cache (db : Stores)
    (quotes : list (gmap string JsValue))
    (cache : gmap JsValue (gmap string JsValue)) :
  saveEach fieldMap marketMap db quotes cache
  = (cache, (λ data, issued (save db cache data)) <$> quotes).
Proof.
  unfold saveEach.
  induction quotes as [|data quotes IH] using rev_ind; [done|].
  rewrite foldl_app, IH, fmap_app. simpl. by rewrite save_keeps_cache.
Qed.

(** X8. The revision with the existence check asks the normalized store
    only for a valid quote that equals its cached snapshot; a quote that
    fails validation or differs from the cache never costs a query. *)
Theorem existence_asked_only_when_unchanged (db : Stores)
    (cache : gmap JsValue (gmap string JsValue)) (data : gmap string JsValue) :
  (∃ code, MainExists code ∈ issued (saveChecked db cache data))
  ↔ truthy (prop data "symbol") = true
    ∧ truthyM (mprop (mapQuote data) "StockCode") = true
    ∧ equals_cache cache data.
Proof.
  rewrite <- isChanged_equals.
  unfold saveQuoteIfChangedChecked. cbv zeta.
  destruct (truthy _); simpl.
  2: { split; [intros [code Hin]; by apply elem_of_nil in Hin|by intros [? _]]. }
  destruct (truthyM _); simpl.
  2: { split; [intros [code Hin]; by apply elem_of_nil in Hin|by intros (_ & ? & _)]. }
  destruct (isChanged _ _); simpl.
  - split; [|by intros (_ & _ & ?)].
    intros [code Hin].
    destruct (dnse_updateOne db _ && main_updateOne db _); simpl in Hin;
      repeat (apply elem_of_cons in Hin as [Hin|Hin]; [done|]);
      by apply elem_of_nil in Hin.
  - split; [done|]. intros _. eexists.
    destruct (main_exists db _) as [[]|]; simpl;
      [| destruct (dnse_updateOne db _ && main_updateOne db _); simpl |];
      apply elem_of_cons; by left.
Qed.

Lemma strict_eq_refl v : not_NaN v → strict_eq v v = true.
Proof.
  unfold not_NaN, strict_eq. intros Hv.
  destruct v as [| | |[]|]; try done; by apply bool_decide_eq_true.
Qed.

(** X9. In the revision with the existence check a quote that has just been
    handled is not written again: when the stores resolve and the
    normalized record exists, handling the same quote a second time issues
    the existence query and no upsert. *)
Theorem repeated_quote_not_rewritten (db : Stores)
    (cache : gmap JsValue (gmap string JsValue)) (data : gmap string JsValue) :
  let symbol := prop data "symbol" in
  let StockCode := mprop (mapQuote data) "StockCode" in
  let first := saveChecked db cache data in
  truthy symbol = true →
  truthyM StockCode = true →
  (∀ k, k ∈ compared → not_NaN (prop data k)) →
  dnse_updateOne db symbol = true → main_updateOne db StockCode = true →
  main_exists db StockCode = Some true →
  saveChecked db (cache_after first) data
  = {| completion := Resolved; issued := [MainExists StockCode];
       cache_after := cache_after first |}.
Proof.
  intros symbol StockCode first Hsymbol Hcode Hnum Hdnse Hmain Hexists.
  assert (equals_cache (cache_after first) data) as Hequal.
  { subst first symbol StockCode.
    unfold saveQuoteIfChangedChecked. cbv zeta.
    rewrite Hsymbol, Hcode, Hdnse, Hmain, Hexists. simpl.
    destruct (isChanged (cache_get cache (prop data "symbol")) data) eqn:Hchanged; simpl.
    - exists data. split.
      + unfold cache_get, cache_set. by rewrite lookup_insert_eq.
      + intros k Hk. by apply strict_eq_refl, Hnum.
    - by apply isChanged_equals. }
  destruct (checked_unchanged_quote fieldMap marketMap db (cache_after first) data
              Hsymbol Hcode Hequal) as [Hfound _].
  by apply Hfound.
Qed.

Ltac kept :=
  split_and!;
  [by left | done | (let Hne := fresh in intros Hne; by destruct Hne) | done].

(** X10. In that revision the cache changes only when a save has gone
    through, and then only for the symbol of the quote: a call that throws
    leaves the cache as it was, and the snapshots of other symbols are
    never touched. *)
Theorem cache_changes_only_on_success (db : Stores)
    (cache : gmap JsValue (gmap string JsValue)) (data : gmap string JsValue) :
  let symbol := prop data "symbol" in
  let saved := saveChecked db cache data in
  (cache_after saved = cache ∨ cache_after saved = cache_set cache symbol data)
  ∧ (completion saved ≠ Resolved → cache_after saved = cache)
  ∧ (cache_after saved ≠ cache →
     ∃ asked, issued saved
              = asked ++ both_upserts symbol data (mprop (mapQuote data) "StockCode")
                           (mapQuote data))
  ∧ (∀ other, other ≠ symbol →
              cache_get (cache_after saved) other = cache_get cache other).
Proof.
  intros symbol saved. subst symbol saved.
  assert (∀ other, other ≠ prop data "symbol" →
            cache_get (cache_set cache (prop data "symbol") data) other
            = cache_get cache other) as Hframe.
  { intros other Hother. unfold cache_get, cache_set. by rewrite lookup_insert_ne. }
  unfold saveQuoteIfChangedChecked. cbv zeta.
  destruct (truthy _); simpl; [|kept].
  destruct (truthyM _); simpl; [|kept].
  destruct (isChanged _ _); simpl.
  - destruct (dnse_updateOne db _ && main_updateOne db _); simpl; [|kept].
    split_and!; [by right|by intros []|by (intros _; exists [])|exact Hframe].
  - destruct (main_exists db _) as [[]|]; simpl; [kept| |kept].
    destruct (dnse_updateOne db _ && main_updateOne db _); simpl; [|kept].
    split_and!; [by right|by intros []|by (intros _; eexists [_])|exact Hframe].
Qed.

(** *** normalizeQuote *)

Lemma toNumber_idempotent v :
  MqttService.toNumber (MqttService.toNumber v) = MqttService.toNumber v.
Proof.
  unfold MqttService.toNumber.
  destruct (isNaN (Number v)) eqn:Hnan; simpl; [done|]. by rewrite Hnan.
Qed.

Lemma normalizeQuote_lookup raw k :
  MqttService.normalizeQuote raw !! k =
  if decide (k ∈ MqttService.numericFields)
  then Some (MqttService.toNumber (prop raw k)) else raw !! k.
Proof.
  unfold MqttService.normalizeQuote.
  by rewrite (foldl_insert_lookup (λ k, MqttService.toNumber (prop raw k))).
Qed.

(** X11. [normalizeQuote] is idempotent: cleaning a cleaned quote changes
    nothing. *)
Theorem normalizeQuote_idempotent (raw : gmap string JsValue) :
  MqttService.normalizeQuote (MqttService.normalizeQuote raw)
  = MqttService.normalizeQuote raw.
Proof.
  apply map_eq. intros k. rewrite !normalizeQuote_lookup.
  case_decide as Hk; [|done].
  unfold prop at 1. rewrite normalizeQuote_lookup, decide_True by done. simpl.
  by rewrite toNumber_idempotent.
Qed.

(** X12. After [normalizeQuote] each of the twelve numeric properties is
    [undefined] or a number that is not NaN; a missing one is [undefined],
    one that came as [null] is the number 0; and every other property,
    such as the symbol, is as it came. *)
Theorem normalizeQuote_shape (raw : gmap string JsValue) (k : string) :
  (k ∈ MqttService.numericFields →
     (prop (MqttService.normalizeQuote raw) k = VUndefined
      ∨ ∃ n, prop (MqttService.normalizeQuote raw) k = VNum n ∧ isNaN n = false)
     ∧ (prop raw k = VUndefined → prop (MqttService.normalizeQuote raw) k = VUndefined)
     ∧ (prop raw k = VNull →
        prop (MqttService.normalizeQuote raw) k = VNum (num_of_Z 0)))
  ∧ (k ∉ MqttService.numericFields → MqttService.normalizeQuote raw !! k = raw !! k).
Proof.
  split.
  - intros Hk. rewrite normalizeQuote_prop, decide_True by done.
    unfold MqttService.toNumber. split_and!.
    + destruct (isNaN (Number (prop raw k))) eqn:Hnan; eauto.
    + by intros ->.
    + by intros ->.
  - intros Hk. by rewrite normalizeQuote_lookup, decide_False.
Qed.

Lemma compared_numeric k : k ∈ compared → k ∈ MqttService.numericFields.
Proof.
  unfold compared, MqttService.numericFields. intros Hk.
  repeat (apply elem_of_cons in Hk as [->|Hk]; [repeat constructor|]).
  by apply elem_of_nil in Hk.
Qed.

Lemma toNumber_not_NaN v : not_NaN (MqttService.toNumber v).
Proof.
  unfold not_NaN, MqttService.toNumber.
  destruct (isNaN (Number v)) eqn:Hnan; [done|]. intros [= Heq].
  by rewrite Heq in Hnan.
Qed.

(** X13. Cleaned quotes are compared by number: a quote cleaned by
    [normalizeQuote] counts as unchanged against a cleaned snapshot exactly
    when the five compared properties coerce to the same values, however
    they were spelled in the raw messages. *)
Theorem cleaned_quotes_compare_by_number (cached data : gmap string JsValue) :
  isChanged (Some (MqttService.normalizeQuote cached)) (MqttService.normalizeQuote data)
  = false
  ↔ ∀ k, k ∈ compared →
         MqttService.toNumber (prop cached k) = MqttService.toNumber (prop data k).
Proof.
  assert (∀ k, k ∈ compared →
            strict_eq (prop (MqttService.normalizeQuote cached) k)
                      (prop (MqttService.normalizeQuote data) k) = true
            ↔ MqttService.toNumber (prop cached k) = MqttService.toNumber (prop data k))
    as Hfield.
  { intros k Hk%compared_numeric.
    rewrite !normalizeQuote_prop, !decide_True by done. split.
    - unfold strict_eq. intros Heq.
      destruct (MqttService.toNumber (prop cached k)) as [| | |[]|],
               (MqttService.toNumber (prop data k)) as [| | |[]|];
        try done; by apply bool_decide_eq_true in Heq.
    - intros ->. apply strict_eq_refl, toNumber_not_NaN. }
  unfold isChanged, strict_neq.
  rewrite !orb_false_iff, !negb_false_iff. split.
  - intros ((((H1 & H2) & H3) & H4) & H5) k Hk. apply Hfield; [done|].
    unfold compared in Hk.
    repeat (apply elem_of_cons in Hk as [->|Hk]; [done|]).
    by apply elem_of_nil in Hk.
  - intros Hall.
    repeat split; apply Hfield; try apply Hall; unfold compared; repeat constructor.
Qed.

End generic.

End QuoteFurther.

(** ** Further properties of the connection manager *)

Module ConnectionFurther.
Import MqttConnectionManager Backoff Further ConnectionProperties.

(** X14. A whole call of [connect()] always returns, and it leaves the
    guard as it found it: down if it was down, whichever way the attempt
    went. *)
Theorem connect_returns_and_releases_guard (c : Call) (w : World) :
  (connect_run c w).2 = None
  ∧ isConnecting (manager (connect c w).1) = isConnecting (manager w).
Proof.
  split; [apply connect_returns|].
  destruct (isConnecting (manager w)) eqn:Hguard.
  - unfold connect, connect_run, connect_enter.
    destruct (trading c); simpl; [|done]. by rewrite Hguard.
  - by apply connect_delay.
Qed.

Lemma set_isConnecting_back w :
  isConnecting (manager w) = false →
  set_isConnecting false (set_isConnecting true w) = w.
Proof. destruct w as [[c g t d] tm ss f]. simpl. by intros ->. Qed.

(** X15. When the broker address is missing from the configuration, a call
    of [connect()] inside trading hours (guard down, credentials obtained)
    asks for the token, sends the "Missing Broker Url" alert and returns:
    no reconnect is scheduled, no session is opened and the manager is left
    exactly as it was. *)
Theorem missing_broker_url_only_alerts (c : Call) (w : World) :
  trading c = true →
  isConnecting (manager w) = false →
  is_Some (auth (attempt c)) →
  (BROKER_URL (attempt c) = None ∨ BROKER_URL (attempt c) = Some "") →
  connect c w = (w, [GetToken; Alert "Missing Broker Url"]).
Proof.
  intros Htrading Hguard [[token investorId] Hauth] Hurl.
  unfold connect, connect_run, connect_enter.
  rewrite Htrading, Hguard. simpl. rewrite Hauth.
  destruct Hurl as [-> | ->]; simpl; by rewrite set_isConnecting_back.
Qed.

Lemma owned_timers_shape w :
  owns_timers w →
  timers w = ∅ ∨ ∃ h d, reconnectTimer (manager w) = Some h ∧ timers w = {[h := d]}.
Proof.
  intros Hown.
  destruct (reconnectTimer (manager w)) as [h|] eqn:Hfield.
  - destruct (timers w !! h) as [d|] eqn:Hh.
    + right. exists h, d. split; [done|].
      apply map_eq. intros h'. rewrite lookup_singleton.
      case_decide as Hh'; [by subst|].
      destruct (timers w !! h') eqn:Hother; [|done].
      assert (is_Some (timers w !! h')) as Hsome by (by rewrite Hother).
      apply Hown in Hsome. congruence.
    + left. apply map_empty. intros h'.
      destruct (timers w !! h') eqn:Hother; [|done].
      assert (is_Some (timers w !! h')) as Hsome by (by rewrite Hother).
      apply Hown in Hsome. congruence.
  - left. apply map_empty. intros h'.
    destruct (timers w !! h') eqn:Hother; [|done].
    assert (is_Some (timers w !! h')) as Hsome by (by rewrite Hother).
    apply Hown in Hsome. congruence.
Qed.

(** X16. At most one reconnect timer is armed at any time, and it is the one
    the manager holds in [reconnectTimer]: arming a new one always cancels
    the one before. *)
Theorem at_most_one_reconnect_timer (s : System) :
  reachable s →
  (size (timers (world s)) ≤ 1)%nat
  ∧ ∀ h, is_Some (timers (world s) !! h) →
         reconnectTimer (manager (world s)) = Some h.
Proof.
  intros [_ Hown]%reachable_invariant. split; [|exact Hown].
  destruct (owned_timers_shape _ Hown) as [-> | (h & d & _ & ->)].
  - rewrite map_size_empty. lia.
  - rewrite map_size_singleton. lia.
Qed.

Lemma scheduleReconnect_timers r w :
  owns_timers w →
  timers (scheduleReconnect true r w).1
  = {[fresh w := (inject_Z (reconnectDelay (manager w))
                  + jitter r (reconnectDelay (manager w)))%Q]}.
Proof.
  intros Hown. unfold scheduleReconnect, clear_reconnectTimer. simpl.
  destruct (owned_timers_shape _ Hown) as [Hempty | (h & d & Hfield & Hone)].
  - rewrite Hempty. destruct (reconnectTimer (manager w)); simpl;
      by rewrite ?delete_empty, insert_empty.
  - rewrite Hfield, Hone. simpl. by rewrite delete_singleton_eq, insert_empty.
Qed.

(** X17. In every reachable state, a reconnect scheduled inside trading
    hours leaves exactly one timer armed, and for [Math.random()] in [0,1)
    its delay is at least 5 seconds and at most 22.5 minutes (the cap of 15
    minutes plus half of it). *)
Theorem scheduled_delay_bounded (s : System) (random : Q) :
  reachable s →
  (0 <= random)%Q → (random < 1)%Q →
  ∃ delay,
    timers (scheduleReconnect true random (world s)).1 = {[fresh (world s) := delay]}
    ∧ (5000 <= delay)%Q ∧ (delay <= 1350000)%Q.
Proof.
  intros [[Hmin Hmax] Hown]%reachable_invariant Hlo Hhi.
  eexists. split; [by apply scheduleReconnect_timers|].
  unfold reconnectMax in Hmax.
  set (d := reconnectDelay (manager (world s))) in *.
  assert (5000 <= inject_Z d)%Q as Hd1
    by (change 5000%Q with (inject_Z 5000); by rewrite <- Zle_Qle).
  assert (inject_Z d <= 900000)%Q as Hd2
    by (change 900000%Q with (inject_Z 900000); rewrite <- Zle_Qle; lia).
  assert (0 < inject_Z d)%Q as Hd0 by lra.
  destruct (scaled_half_bounds random (inject_Z d) Hlo Hhi Hd0) as [Hj0 Hj1].
  unfold jitter.
  assert (inject_Z d / 2 <= 450000)%Q as Hhalf.
  { apply Qle_shift_div_r; [done|]. lra. }
  split; lra.
Qed.

(** *** The guard *)

Lemma in_flight_remove p ws ws' :
  remove_first p ws = Some ws' →
  in_flight ws = ((if past_guard p then 1 else 0) + in_flight ws')%nat.
Proof.
  revert ws'. induction ws as [|p' ws IH]; intros ws'; simpl; [done|].
  case_bool_decide as Hp.
  - intros [= <-]. by subst.
  - destruct (remove_first p ws) as [rest|]; [|done]. simpl.
    intros [= <-]. simpl. rewrite (IH rest eq_refl). lia.
Qed.

Lemma guard_counts_enter t w ws :
  guard_counts {| world := w; waiting := ws |} →
  guard_counts (enter t w ws).1.
Proof.
  unfold guard_counts, enter, connect_enter. simpl.
  destruct t; simpl; [|done].
  destruct (isConnecting (manager w)) eqn:Hguard; simpl.
  - by rewrite Hguard.
  - intros Hnone. by rewrite Hnone.
Qed.

Lemma guard_counts_step e s s' es :
  guard_counts s → step e s = Some (s', es) → guard_counts s'.
Proof.
  intros Hinv Hstep. destruct e as [t|r|h t|t q|]; simpl in Hstep.
  - injection Hstep as Hs. apply (f_equal fst) in Hs. simpl in Hs. subst s'.
    apply guard_counts_enter. by destruct s.
  - destruct (remove_first (point r) (waiting s)) as [ws|] eqn:Hws; [|done].
    simpl in Hstep. apply in_flight_remove in Hws.
    unfold guard_counts in *. rewrite Hws in Hinv. clear Hws.
    destruct r as [|a| |t q]; simpl in Hstep, Hinv.
    + injection Hstep as <- _. done.
    + destruct (isConnecting (manager (world s))) eqn:Hguard; [|done].
      injection Hinv as Hrest.
      destruct (auth a) as [[token investorId]|];
        [destruct (BROKER_URL a) as [url|];
         [case_bool_decide; [|destruct (opens a)]|]|];
        injection Hstep as <- _; simpl; by rewrite ?Hguard, Hrest.
    + destruct (isConnecting (manager (world s))) eqn:Hguard; [|done].
      injection Hinv as Hrest. injection Hstep as <- _. done.
    + destruct (isConnecting (manager (world s))) eqn:Hguard; [|done].
      injection Hinv as Hrest.
      destruct (scheduleReconnect t q (world s)) as [w' es'].
      injection Hstep as <- _. done.
  - destruct (timers (world s) !! h); [|done]. simpl in Hstep.
    injection Hstep as Hs. apply (f_equal fst) in Hs. simpl in Hs. subst s'.
    apply guard_counts_enter. by destruct s as [[]].
  - pose proof (scheduleReconnect_isConnecting t q (world s)) as Hsame.
    destruct (scheduleReconnect t q (world s)) as [w' es'].
    injection Hstep as <- _. unfold guard_counts in *. simpl in *.
    by rewrite Hsame.
  - pose proof (end_manager (world s)) as Hm.
    destruct (end_ (world s)) as [w' es'].
    injection Hstep as <- _. unfold guard_counts in *. simpl in *.
    by rewrite Hm.
Qed.

(** X18. The guard is up exactly while one call of [connect()] is suspended
    past it, and never more than one call is: two calls of [connect()]
    never run their attempts at the same time. *)
Theorem one_connect_in_flight (s : System) :
  reachable s →
  in_flight (waiting s)
  = if isConnecting (manager (world s)) then 1%nat else 0%nat.
Proof.
  induction 1 as [|e s s' es _ IH Hstep]; [done|].
  by eapply guard_counts_step.
Qed.

(** *** Sessions *)

Ltac none_ended :=
  let h := fresh "h" in
  let Hin := fresh "Hin" in
  intros h Hin;
  repeat (apply elem_of_cons in Hin as [Hin|Hin]; [done|]);
  by apply elem_of_nil in Hin.

Ltac same_client :=
  let new := fresh "new" in
  let Hclient := fresh "Hclient" in
  let Hne := fresh "Hne" in
  intros new Hclient Hne; destruct Hne; exact Hclient.

Lemma connect_enter_keeps_sessions t w :
  keeps_sessions w (connect_enter t w).1.1 (connect_enter t w).1.2.
Proof.
  unfold connect_enter, keeps_sessions.
  destruct t; simpl; [destruct (isConnecting (manager w)); simpl|];
    (split_and!; [done|none_ended|same_client]).
Qed.

Lemma scheduleReconnect_keeps_sessions t q w :
  keeps_sessions w (scheduleReconnect t q w).1 (scheduleReconnect t q w).2.
Proof.
  unfold scheduleReconnect, clear_reconnectTimer, keeps_sessions.
  destruct t; simpl; [destruct (reconnectTimer (manager w)); simpl|];
    (split_and!; [done|none_ended|same_client]).
Qed.

Lemma connect_resume_keeps_sessions r w :
  keeps_sessions w (connect_resume r w).1.1 (connect_resume r w).1.2.
Proof.
  destruct r as [|a| |t q]; simpl.
  - split_and!; [done|none_ended|same_client].
  - unfold keeps_sessions.
    destruct (auth a) as [[token investorId]|]; simpl;
      [destruct (BROKER_URL a) as [url|]; simpl;
       [case_bool_decide; simpl; [|destruct (opens a); simpl]|]|];
      (split_and!; [set_solver|none_ended|]);
      try same_client; intros new [= <-] _; set_solver.
  - split_and!; [done|none_ended|same_client].
  - pose proof (scheduleReconnect_keeps_sessions t q w) as Hkept.
    destruct (scheduleReconnect t q w) as [w' es]. exact Hkept.
Qed.

(** X19. [connect()] never ends a session.  No piece of it, whether entered
    by a caller or by a reconnect timer or resumed after an [await] (the
    catch block and its [scheduleReconnect()] included), ends a session or
    drops one from those that are open; so a [connect()] that gets a new
    client while the client the manager holds is still open leaves that
    session open beside the new one.  The manager ends a session in
    [end()], and there only the one it holds.  (What the handlers that
    [registerMqttEvents] installs do to a session that drops is not part of
    this.) *)
Theorem connect_never_ends_a_session (s s' : System) (e : Event)
    (es : list Effect) :
  step e s = Some (s', es) →
  (calls_connect e = true →
     sessions (world s) ⊆ sessions (world s')
     ∧ (∀ h, EndSession h ∉ es)
     ∧ ∀ old new, client (manager (world s)) = Some old →
                  old ∈ sessions (world s) →
                  client (manager (world s')) = Some new → new ≠ old →
                  old ∈ sessions (world s') ∧ new ∈ sessions (world s'))
  ∧ (e = CallEnd →
     sessions (world s') =
     match client (manager (world s)) with
     | Some held => sessions (world s) ∖ {[held]}
     | None => sessions (world s)
     end).
Proof.
  intros Hstep. split.
  - intros Hconnect.
    assert (keeps_sessions (world s) (world s') es) as (Hopen & Hnone & Hnew).
    { destruct e as [t|r|h t|t q|]; try done;
        cbv beta iota zeta delta [step] in Hstep.
      - pose proof (connect_enter_keeps_sessions t (world s)) as Hkept.
        unfold enter in Hstep.
        destruct (connect_enter t (world s)) as [[w' es'] next].
        by injection Hstep as <- <-.
      - destruct (remove_first (point r) (waiting s)) as [ws|]; [|done].
        simpl in Hstep.
        pose proof (connect_resume_keeps_sessions r (world s)) as Hkept.
        destruct (connect_resume r (world s)) as [[w' es'] next].
        by injection Hstep as <- <-.
      - destruct (timers (world s) !! h); [|done]. simpl in Hstep.
        pose proof (connect_enter_keeps_sessions t
                      {| manager := manager (world s);
                         timers := delete h (timers (world s));
                         sessions := sessions (world s);
                         fresh := fresh (world s) |}) as Hkept.
        unfold enter in Hstep.
        destruct (connect_enter t _) as [[w' es'] next].
        by injection Hstep as <- <-. }
    split_and!; [done|done|].
    intros old new Hold Hin Hclient Hne. split; [by apply Hopen|].
    apply Hnew; [done|]. rewrite Hold. by intros [= ->].
  - intros ->. simpl in Hstep.
    pose proof (end_sessions (world s)) as Hss.
    destruct (end_ (world s)) as [w' es'].
    injection Hstep as <- _. exact Hss.
Qed.

End ConnectionFurther.

(** ** Properties of the earlier service *)

Module CronProperties.
Import MqttServiceCron Further.

Lemma same_core_refl s : same_core s s.
Proof. done. Qed.

Lemma same_core_trans s1 s2 s3 : same_core s1 s2 → same_core s2 s3 → same_core s1 s3.
Proof.
  intros (H1 & H2 & H3 & H4) (H1' & H2' & H3' & H4').
  unfold same_core. by rewrite H1', H2', H3', H4'.
Qed.

Lemma same_core_end_client s : same_core s (end_client s).1.
Proof. unfold end_client. by destruct (client (fields s)). Qed.

Lemma same_core_startHealthCheck s : same_core s (startHealthCheck s).1.
Proof. done. Qed.

Lemma same_core_stopHealthCheck s : same_core s (stopHealthCheck s).1.
Proof. unfold stopHealthCheck. by destruct (healthInterval (fields s)). Qed.

Lemma cron_invariant_same_core now s s' :
  same_core s s' → cron_invariant now s → cron_invariant now s'.
Proof.
  intros (H1 & H2 & H3 & H4) (Htime & Hrange & Hown).
  unfold cron_invariant. by rewrite H1, H2, H3, H4.
Qed.

Lemma cron_invariant_scheduleReconnect now r s :
  cron_invariant now s →
  cron_invariant now (scheduleReconnect r s).1
  ∧ reconnectDelay (fields s) ≤ reconnectDelay (fields (scheduleReconnect r s).1).
Proof.
  intros (Htime & Hrange & Hown). unfold scheduleReconnect.
  destruct (reconnectTimer (fields s)) as [old|] eqn:Hold; simpl.
  - split; [|lia]. split; [done|]. split; [simpl; lia|].
    intros h. simpl. rewrite lookup_insert. case_decide; [by subst|].
    rewrite lookup_delete. case_decide; [by intros [? ?]|].
    intros Hh%Hown. congruence.
  - split; [|lia]. split; [done|]. split; [simpl; lia|].
    intros h. simpl. rewrite lookup_insert. case_decide; [by subst|].
    intros Hh%Hown. congruence.
Qed.

Lemma cron_invariant_timer_fired now h s :
  cron_invariant now s →
  cron_invariant now {| fields := fields s; timers := delete h (timers s);
                        intervals := intervals s; sessions := sessions s;
                        fresh := fresh s |}.
Proof.
  intros (Htime & Hrange & Hown). split; [done|]. split; [done|].
  intros h'. simpl. rewrite lookup_delete. case_decide; [by intros [? ?]|].
  apply Hown.
Qed.

(** What a call of [connectToBroker()], entered or resumed, and what follows
    it do to the core of the state. *)
Lemma after_call_core b next s es ws :
  same_core s (state (after_call b next s es ws).1).
Proof. unfold after_call. by destruct next, b. Qed.

Lemma call_connect_core b t s es ws :
  same_core s (state (call_connect b t s es ws).1).
Proof.
  unfold call_connect, connectToBroker_enter, after_call.
  by destruct t, b.
Qed.

Lemma resume_token_core found s :
  same_core s (connectToBroker_resume (ResumeToken found) s).1.1.
Proof.
  unfold connectToBroker_resume.
  destruct (auth found) as [[token investorId]|]; [|done].
  destruct (BROKEN_URL found) as [url|]; [|done].
  case_bool_decide; [done|]. by destruct (opens found).
Qed.

Lemma stepped {A B} (p : A * B) (a : A) (b : B) : Some p = Some (a, b) → a = p.1.
Proof. by intros [= ->]. Qed.

(** One callback keeps the invariant and does not lower the delay. *)
Lemma cron_step now e s s' es :
  cron_invariant now (state s) → step e s = Some (s', es) →
  cron_invariant now (state s')
  ∧ reconnectDelay (fields (state s)) ≤ reconnectDelay (fields (state s')).
Proof.
  intros Hinv Hstep.
  assert (∀ s1, same_core (state s) s1 →
            cron_invariant now s1
            ∧ reconnectDelay (fields (state s)) ≤ reconnectDelay (fields s1)) as Hcore.
  { intros s1 Hsame. split; [by eapply cron_invariant_same_core|].
    destruct Hsame as (_ & -> & _). lia. }
  destruct e as [t| |t| |h t0 t|h t|q|json|r];
    cbv beta iota zeta delta [step] in Hstep.
  - destruct t; apply stepped in Hstep; subst s'; apply Hcore; [apply call_connect_core|apply after_call_core].
  - pose proof (same_core_stopHealthCheck (state s)) as H1.
    destruct (stopHealthCheck (state s)) as [s1 es1]. simpl in H1.
    pose proof (same_core_end_client s1) as H2.
    destruct (end_client s1) as [s2 es2]. simpl in H2.
    injection Hstep as <- _. apply Hcore. by apply (same_core_trans _ s1).
  - apply stepped in Hstep. subst s'.
    apply Hcore, call_connect_core.
  - pose proof (same_core_end_client (state s)) as H1.
    destruct (end_client (state s)) as [s1 es1]. simpl in H1.
    injection Hstep as <- _. apply Hcore.
    apply (same_core_trans _ s1); [exact H1|by repeat split].
  - case_bool_decide; [|done]. destruct (_ <? _).
    + pose proof (same_core_end_client (state s)) as H1.
      destruct (end_client (state s)) as [s1 es1]. simpl in H1.
      apply stepped in Hstep. subst s'.
      apply Hcore. apply (same_core_trans _ s1); [exact H1|apply call_connect_core].
    + injection Hstep as <- _. by apply Hcore.
  - destruct (timers (state s) !! h); [|done]. simpl in Hstep.
    apply stepped in Hstep. subst s'.
    pose proof (cron_invariant_timer_fired now h _ Hinv) as Hfired.
    split.
    + eapply cron_invariant_same_core; [apply call_connect_core|exact Hfired].
    + destruct (call_connect_core false t
                  {| fields := fields (state s); timers := delete h (timers (state s));
                     intervals := intervals (state s); sessions := sessions (state s);
                     fresh := fresh (state s) |} [] (waiting s)) as (_ & -> & _).
      simpl. lia.
  - pose proof (cron_invariant_scheduleReconnect now q _ Hinv) as Hs.
    destruct (scheduleReconnect q (state s)) as [s1 es1].
    by injection Hstep as <- _.
  - injection Hstep as <- _. by apply Hcore.
  - destruct (take (point r) (waiting s)) as [[b rest]|]; [|done].
    simpl in Hstep. destruct r as [found|q].
    + pose proof (resume_token_core found (state s)) as H1.
      destruct (connectToBroker_resume (ResumeToken found) (state s))
        as [[s1 es1] next]. simpl in H1.
      apply stepped in Hstep. subst s'.
      apply Hcore. apply (same_core_trans _ s1); [exact H1|apply after_call_core].
    + cbv beta iota zeta delta [connectToBroker_resume] in Hstep.
      pose proof (cron_invariant_scheduleReconnect now q _ Hinv) as [Hi Hle].
      destruct (scheduleReconnect q (state s)) as [s1 es1].
      apply stepped in Hstep. subst s'.
      pose proof (after_call_core b None s1 es1 rest) as Hsame.
      split; [by eapply cron_invariant_same_core|].
      destruct Hsame as (_ & Hsame & _). rewrite Hsame. exact Hle.
Qed.

Lemma reachable_cron_invariant now s : reachable now s → cron_invariant now (state s).
Proof.
  induction 1 as [|e s s' es _ IH Hstep].
  - split; [done|]. split; [simpl; lia|]. intros h [d Hd]. simpl in Hd.
    by rewrite lookup_empty in Hd.
  - by eapply cron_step.
Qed.

(** X20. In the earlier service the reconnect delay never goes down: no
    callback lowers it, not even a successful connect or the end of a
    session, so after enough drops it stays at the cap of 15 minutes. *)
Theorem cron_delay_never_decreases (now : Z) (s s' : System) (e : Event)
    (es : list Effect) :
  reachable now s →
  step e s = Some (s', es) →
  5000 ≤ reconnectDelay (fields (state s))
  ∧ reconnectDelay (fields (state s)) ≤ reconnectDelay (fields (state s'))
  ∧ reconnectDelay (fields (state s')) ≤ 900000.
Proof.
  intros Hreach Hstep.
  pose proof (reachable_cron_invariant now s Hreach) as Hinv.
  destruct (cron_step now e s s' es Hinv Hstep) as [(_ & Hrange' & _) Hle].
  destruct Hinv as (_ & Hrange & _). lia.
Qed.

(** X21. No callback of the earlier service records the time of a message:
    [lastMessageTime] stays the time of construction, whatever messages
    arrive.  So a health tick acts exactly when more than 15 minutes have
    passed since construction.  It then sends the "MQTT Health Check" alert
    and forces a reconnect: the client the service holds is ended (and
    stays in the [client] field), and [connectToBroker()] is called, which
    inside trading hours asks for the token and outside them returns at
    once.  The fields are left as they were, so the next tick acts again.
    A tick that comes earlier does nothing. *)
Theorem health_check_measures_from_construction (now : Z) (s s' : System)
    (h : nat) (tick : Z) (trading : bool) (es : list Effect) :
  reachable now s →
  step (HealthTick h tick trading) s = Some (s', es) →
  lastMessageTime (fields (state s)) = now
  ∧ (15 * 60 * 1000 < tick - now →
     es = SendError "MQTT Health Check"
          :: match client (fields (state s)) with
             | Some held => [EndSession held]
             | None => []
             end
          ++ (if trading then [GetToken] else [])
     ∧ fields (state s') = fields (state s)
     ∧ sessions (state s') =
       match client (fields (state s)) with
       | Some held => sessions (state s) ∖ {[held]}
       | None => sessions (state s)
       end
     ∧ timers (state s') = timers (state s)
     ∧ intervals (state s') = intervals (state s)
     ∧ waiting s' = if trading then (AtToken, false) :: waiting s else waiting s)
  ∧ (tick - now ≤ 15 * 60 * 1000 → s' = s ∧ es = []).
Proof.
  intros Hreach Hstep.
  destruct (reachable_cron_invariant now s Hreach) as (Htime & _).
  split; [done|]. simpl in Hstep. rewrite Htime in Hstep.
  case_bool_decide; [|done].
  destruct (15 * 60 * 1000 <? tick - now) eqn:Hidle.
  - apply Z.ltb_lt in Hidle. split; [|lia]. intros _.
    unfold end_client in Hstep.
    unfold call_connect, connectToBroker_enter, after_call in Hstep.
    destruct (client (fields (state s))) as [held|], trading; simpl in Hstep;
      by injection Hstep as <- <-.
  - apply Z.ltb_ge in Hidle. split; [lia|]. intros _. by injection Hstep as <- <-.
Qed.

(** X22. A reconnect timer of the earlier service that fires outside trading
    hours does nothing and leaves no timer armed: [connectToBroker] returns
    at once, so reconnecting stops until something else connects. *)
Theorem cron_timer_outside_window_stops (now : Z) (s s' : System) (h : nat)
    (es : list Effect) :
  reachable now s →
  step (TimerFires h false) s = Some (s', es) →
  es = [] ∧ timers (state s') = ∅
  ∧ fields (state s') = fields (state s) ∧ waiting s' = waiting s
  ∧ sessions (state s') = sessions (state s).
Proof.
  intros Hreach Hstep.
  destruct (reachable_cron_invariant now s Hreach) as (_ & _ & Hown).
  simpl in Hstep. destruct (timers (state s) !! h) as [d|] eqn:Hh; [|done].
  simpl in Hstep. injection Hstep as <- <-. split_and!; try done. simpl.
  apply map_empty. intros h'. rewrite lookup_delete. case_decide; [done|].
  destruct (timers (state s) !! h') eqn:Hother; [|done].
  assert (is_Some (timers (state s) !! h)) as H1 by (by rewrite Hh).
  assert (is_Some (timers (state s) !! h')) as H2 by (by rewrite Hother).
  apply Hown in H1, H2. congruence.
Qed.

(** X23. A dropped session of the earlier service always gets a reconnect
    scheduled, whether or not trading hours are on, with a whole number of
    milliseconds between the current delay and one and a half times it, and
    that timer is then the only one armed. *)
Theorem cron_drop_always_schedules (now : Z) (s : System) (random : Q) :
  reachable now s →
  (0 <= random)%Q → (random < 1)%Q →
  ∃ s' delay,
    step (TransportDown random) s
    = Some (s', match reconnectTimer (fields (state s)) with
                | Some old => [ClearTimeout old; SetTimeout (fresh (state s)) delay]
                | None => [SetTimeout (fresh (state s)) delay]
                end)
    ∧ timers (state s') = {[fresh (state s) := delay]}
    ∧ reconnectDelay (fields (state s)) ≤ delay
    ∧ 2 * delay < 3 * reconnectDelay (fields (state s)).
Proof.
  intros Hreach Hlo Hhi.
  destruct (reachable_cron_invariant now s Hreach) as (_ & Hrange & Hown).
  set (d := reconnectDelay (fields (state s))) in *.
  assert (0 < d) as Hd by lia.
  destruct (ConnectionProperties.legacy_jitter_within_half_delay random d Hlo Hhi Hd)
    as [Hj0 Hj1].
  exists {| state := (scheduleReconnect random (state s)).1; waiting := waiting s |},
    (d + MqttService.jitter random d). simpl.
  unfold scheduleReconnect. fold d. split_and!.
  - by destruct (reconnectTimer (fields (state s))).
  - destruct (reconnectTimer (fields (state s))) as [old|] eqn:Hold; simpl;
      apply map_eq; intros h'; rewrite lookup_insert, lookup_singleton;
      (case_decide; [done|]); rewrite ?lookup_delete; try case_decide; try done;
      destruct (timers (state s) !! h') eqn:Hother; try done;
      assert (is_Some (timers (state s) !! h')) as H2 by (by rewrite Hother);
      apply Hown in H2; congruence.
  - lia.
  - unfold Qlt in Hj1. simpl in Hj1. lia.
Qed.

End CronProperties.

(** ** Further worked examples *)

Module FurtherExamples.
Import Js QuoteService App Sample Inputs Further.

Lemma field_without_source_is_null_witness :
  mprop (mapQuote_utc quote_FPT) "Remarks" = MVal VNull.
Proof.
  apply (QuoteFurther.field_without_source_is_null (rt := host) fieldMap marketMap
           quote_FPT "Remarks" None).
  - exact Examples.sample_keys_distinct.
  - apply (bool_decide_unpack _). by vm_compute.
  - by left.
Defined.

Lemma market_translated_or_kept_witness :
  mprop (mapQuote_utc quote_FPT) "MarketID" = MVal (text "HOSE").
Proof.
  destruct (QuoteFurther.market_translated_or_kept (rt := host) fieldMap marketMap
              quote_FPT "marketId") as [Hfound _].
  - exact Examples.sample_keys_distinct.
  - apply (bool_decide_unpack _). by vm_compute.
  - done.
  - apply (bool_decide_unpack _). by vm_compute.
  - by vm_compute.
  - apply (bool_decide_unpack _). by vm_compute.
  - apply (Hfound (text "HOSE")); by vm_compute.
Defined.

Lemma readable_value_stored_as_number_witness :
  mprop (mapQuote_utc quote_FPT) "MatchPrice"
  = MVal (VNum (@Number host (prop quote_FPT "matchPrice"))).
Proof.
  destruct (QuoteFurther.readable_value_stored_as_number (rt := host) fieldMap
              marketMap quote_FPT "MatchPrice" "matchPrice") as [Hnumber _].
  - exact Examples.sample_keys_distinct.
  - apply (bool_decide_unpack _). by vm_compute.
  - done.
  - done.
  - done.
  - apply Hnumber; by vm_compute.
Defined.

Lemma mapping_reads_only_table_fields_witness :
  quote_FPT ≠ quote_FPT_tagged
  ∧ mapQuote_utc quote_FPT = mapQuote_utc quote_FPT_tagged.
Proof.
  split.
  - intros Heq. assert (quote_FPT !! "receivedAt" = quote_FPT_tagged !! "receivedAt")
      as Hread by (by rewrite <- Heq).
    by vm_compute in Hread.
  - apply (QuoteFurther.mapping_reads_only_table_fields (rt := host) fieldMap marketMap).
    intros mainKey k Hin. unfold prop, quote_FPT_tagged.
    rewrite lookup_insert_ne; [done|]. intros <-.
    unfold fieldMap in Hin.
    repeat (apply elem_of_cons in Hin as [Hin|Hin]; [congruence|]).
    by apply elem_of_nil in Hin.
Defined.

Lemma repeated_quote_not_rewritten_witness :
  saveChecked_utc full_stores
    (cache_after (saveChecked_utc full_stores ∅ quote_FPT)) quote_FPT
  = {| completion := Resolved; issued := [MainExists (MVal (text "FPT"))];
       cache_after := cache_after (saveChecked_utc full_stores ∅ quote_FPT) |}.
Proof.
  apply (QuoteFurther.repeated_quote_not_rewritten (rt := host) fieldMap marketMap
           full_stores ∅ quote_FPT); try by vm_compute.
  intros k Hk. unfold compared in Hk.
  repeat (apply elem_of_cons in Hk as [->|Hk]; [by vm_compute|]).
  by apply elem_of_nil in Hk.
Defined.

Lemma missing_broker_url_only_alerts_witness :
  MqttConnectionManager.connect call_without_url
    (MqttConnectionManager.world MqttConnectionManager.start)
  = (MqttConnectionManager.world MqttConnectionManager.start,
     [MqttConnectionManager.GetToken;
      MqttConnectionManager.Alert "Missing Broker Url"]).
Proof.
  apply ConnectionFurther.missing_broker_url_only_alerts;
    [done | done | by eexists | by left].
Defined.

Lemma at_most_one_reconnect_timer_witness :
  (size (MqttConnectionManager.timers (MqttConnectionManager.world retrying)) ≤ 1)%nat
  ∧ MqttConnectionManager.reconnectTimer
      (MqttConnectionManager.manager (MqttConnectionManager.world retrying))
    = Some 1%nat.
Proof.
  destruct (ConnectionFurther.at_most_one_reconnect_timer retrying
              Examples.retrying_reachable) as [Hsize Hown].
  split; [exact Hsize|]. apply Hown. eexists. by vm_compute.
Defined.

Lemma scheduled_delay_bounded_witness :
  ∃ delay,
    MqttConnectionManager.timers
      (MqttConnectionManager.scheduleReconnect true (1 # 2)
         (MqttConnectionManager.world retrying)).1
    = {[MqttConnectionManager.fresh (MqttConnectionManager.world retrying) := delay]}
    ∧ (5000 <= delay)%Q ∧ (delay <= 1350000)%Q.
Proof.
  apply (ConnectionFurther.scheduled_delay_bounded retrying (1 # 2)
           Examples.retrying_reachable); by vm_compute.
Defined.

Lemma one_connect_in_flight_witness :
  in_flight (MqttConnectionManager.waiting Backoff.connecting) = 1%nat.
Proof.
  exact (ConnectionFurther.one_connect_in_flight Backoff.connecting
           ConnectionProperties.connecting_reachable).
Defined.

Lemma connect_never_ends_a_session_witness :
  MqttConnectionManager.client
    (MqttConnectionManager.manager (MqttConnectionManager.world reconnecting))
  = Some 0%nat
  ∧ match MqttConnectionManager.step
            (MqttConnectionManager.Continue
               (MqttConnectionManager.ResumeToken good_attempt)) reconnecting with
    | Some (s', _) =>
        MqttConnectionManager.client
          (MqttConnectionManager.manager (MqttConnectionManager.world s'))
        = Some 1%nat
        ∧ 0%nat ∈ MqttConnectionManager.sessions (MqttConnectionManager.world s')
        ∧ 1%nat ∈ MqttConnectionManager.sessions (MqttConnectionManager.world s')
    | None => False
    end.
Proof.
  split; [by vm_compute|].
  destruct (MqttConnectionManager.step
              (MqttConnectionManager.Continue
                 (MqttConnectionManager.ResumeToken good_attempt)) reconnecting)
    as [[s' es]|] eqn:Hstep; [|by vm_compute in Hstep].
  assert (MqttConnectionManager.client
            (MqttConnectionManager.manager (MqttConnectionManager.world s'))
          = Some 1%nat) as Hnew.
  { injection Hstep as <- _. by vm_compute. }
  split; [exact Hnew|].
  destruct (ConnectionFurther.connect_never_ends_a_session reconnecting s'
              (MqttConnectionManager.Continue
                 (MqttConnectionManager.ResumeToken good_attempt)) es Hstep)
    as [Hconnect _].
  destruct (Hconnect eq_refl) as (_ & _ & Hboth).
  apply (Hboth 0%nat 1%nat); [by vm_compute | | exact Hnew | done].
  apply (bool_decide_unpack _). by vm_compute.
Defined.

Lemma cron_run_reachable now es s s' :
  MqttServiceCron.reachable now s → MqttServiceCron.run es s = Some s' →
  MqttServiceCron.reachable now s'.
Proof.
  revert s'. induction es as [|e es IH] using rev_ind; intros s' Hs Hrun.
  - injection Hrun as <-. exact Hs.
  - unfold MqttServiceCron.run in Hrun. rewrite foldl_app in Hrun. simpl in Hrun.
    fold (MqttServiceCron.run es s) in Hrun.
    destruct (MqttServiceCron.run es s) as [s1|] eqn:Hes; [|done]. simpl in Hrun.
    destruct (MqttServiceCron.step e s1) as [[s2 es2]|] eqn:Hstep; [|done].
    injection Hrun as <-.
    eapply MqttServiceCron.reachable_step; [by apply IH|exact Hstep].
Qed.

Lemma cron_dropped_reachable : MqttServiceCron.reachable 0 cron_dropped.
Proof.
  apply (cron_run_reachable 0 cron_events (MqttServiceCron.start 0));
    [apply MqttServiceCron.reachable_start | by vm_compute].
Qed.

Lemma cron_delay_never_decreases_witness :
  match MqttServiceCron.step MqttServiceCron.CronEndSession cron_dropped with
  | Some (s', _) =>
      10000 ≤ MqttServiceCron.reconnectDelay
                (MqttServiceCron.fields (MqttServiceCron.state s'))
  | None => False
  end.
Proof.
  destruct (MqttServiceCron.step MqttServiceCron.CronEndSession cron_dropped)
    as [[s' es]|] eqn:Hstep; [|by vm_compute in Hstep].
  destruct (CronProperties.cron_delay_never_decreases 0 cron_dropped s'
              MqttServiceCron.CronEndSession es cron_dropped_reachable Hstep)
    as (_ & Hkept & _).
  exact Hkept.
Defined.

Lemma health_check_measures_from_construction_witness :
  match MqttServiceCron.step (MqttServiceCron.HealthTick 1 1000000 true) cron_dropped with
  | Some (s', es) =>
      es = [MqttServiceCron.SendError "MQTT Health Check";
            MqttServiceCron.EndSession 0; MqttServiceCron.GetToken]
      ∧ MqttServiceCron.waiting s' = [(MqttServiceCron.AtToken, false)]
  | None => False
  end.
Proof.
  destruct (MqttServiceCron.step (MqttServiceCron.HealthTick 1 1000000 true) cron_dropped)
    as [[s' es]|] eqn:Hstep; [|by vm_compute in Hstep].
  destruct (CronProperties.health_check_measures_from_construction 0 cron_dropped s'
              1 1000000 true es cron_dropped_reachable Hstep) as (_ & Hlate & _).
  destruct Hlate as (Hes & _ & _ & _ & _ & Hwaiting); [lia|].
  split; [exact Hes|exact Hwaiting].
Defined.

Lemma cron_timer_outside_window_stops_witness :
  match MqttServiceCron.step (MqttServiceCron.TimerFires 2 false) cron_dropped with
  | Some (s', es) => es = [] ∧ MqttServiceCron.timers (MqttServiceCron.state s') = ∅
  | None => False
  end.
Proof.
  destruct (MqttServiceCron.step (MqttServiceCron.TimerFires 2 false) cron_dropped)
    as [[s' es]|] eqn:Hstep; [|by vm_compute in Hstep].
  destruct (CronProperties.cron_timer_outside_window_stops 0 cron_dropped s' 2 es
              cron_dropped_reachable Hstep) as (Hes & Htimers & _).
  by split.
Defined.

Lemma cron_drop_always_schedules_witness :
  ∃ s' delay,
    MqttServiceCron.step (MqttServiceCron.TransportDown (1 # 2)) cron_dropped
    = Some (s', [MqttServiceCron.ClearTimeout 2; MqttServiceCron.SetTimeout 3 delay])
    ∧ 10000 ≤ delay ∧ delay < 15000.
Proof.
  destruct (CronProperties.cron_drop_always_schedules 0 cron_dropped (1 # 2)
              cron_dropped_reachable) as (s' & delay & Hstep & _ & Hlo & Hhi);
    [by vm_compute | by vm_compute |].
  exists s', delay. split; [exact Hstep|].
  change (MqttServiceCron.reconnectDelay
            (MqttServiceCron.fields (MqttServiceCron.state cron_dropped)))
    with 10000 in Hlo, Hhi.
  lia.
Defined.

End FurtherExamples.
